(** * dnspod-monitor: change detection over DNSPod record snapshots

    A shallow embedding of [main.py]: the snapshot builder and the change
    detector of [check_for_changes], the two HTTP boundaries
    ([get_dnspod_records], [send_telegram_message]) as functions of the
    response they receive, and the polling loop of the script.

    Conventions.
    - A Python [str] is a [string]: the bytes of its UTF-8 encoding.  Python
      orders strings by code point, which is the byte-wise lexicographic order
      of the UTF-8 encodings, that is [String.ltb].
    - A Python [dict] with string keys is a [gmap string _]: equality of
      dicts ignores insertion order, and so does equality of [gmap]s.
    - A Python [set] is a [gset]; the order in which a [for] loop visits a
      set is not fixed by the language and is taken as a parameter
      ([SetOrder]).
    - [print] appends a [LogLine] to the [stdout] of the [World]. *)

From stdpp Require Import gmap strings list sorting.

Open Scope string_scope.
Open Scope list_scope.

(** ** Exceptions and results *)

(** The only exception the embedded code raises by itself: a failed
    subscript [d[key]] on a dict. *)
Inductive Exception :=
  | KeyError (key : string).

Inductive Result (A : Type) :=
  | Ok (a : A)
  | Raise (e : Exception).
Arguments Ok {A} a.
Arguments Raise {A} e.

Definition result_bind {A B} (r : Result A) (k : A → Result B) : Result B :=
  match r with
  | Ok a => k a
  | Raise e => Raise e
  end.

Declare Scope result_scope.
Delimit Scope result_scope with result.
Notation "x <-? r ;; k" := (result_bind r (λ x, k))
  (at level 100, r at next level, right associativity) : result_scope.

Definition is_raise {A} (r : Result A) : Prop :=
  match r with
  | Ok _ => False
  | Raise _ => True
  end.

(** ** Data model *)

(** One element of the [records] array of the DNSPod answer: a JSON object
    whose fields are strings. *)
Abbreviation RawRecord := (gmap string string).

(** [record[key]] *)
Definition getitem (record : RawRecord) (key : string) : Result string :=
  match record !! key with
  | Some v => Ok v
  | None => Raise (KeyError key)
  end.

(** [record_info = {"type": ..., "value": ...}] *)
Record RecordInfo := {
  type : string;
  value : string;
}.

Global Instance RecordInfo_eq_dec : EqDecision RecordInfo.
Proof. solve_decision. Defined.

(** [previous_records_state] and [current_records_state]: subdomain name to
    the list of its records, in the order the provider listed them. *)
Abbreviation Snapshot := (gmap string (list RecordInfo)).

(** [d.get(name, [])] *)
Definition get_records (d : Snapshot) (name : string) : list RecordInfo :=
  default [] (d !! name).

(** ** [sorted(records, key=lambda x: (x['type'], x['value']))] *)

Definition sort_key (x : RecordInfo) : string * string := (type x, value x).

(** Python compares tuples at the first position where they differ. *)
Definition tuple_lt (a b : string * string) : bool :=
  if decide (a.1 = b.1) then String.ltb a.2 b.2 else String.ltb a.1 b.1.

(** [sorted] is a stable sort that only uses [<] on the keys; the result of
    a stable sort is determined by the input, and it is computed here by
    stable insertion: an element moves past those that are strictly
    smaller. *)
Fixpoint insert_by_key (x : RecordInfo) (l : list RecordInfo) : list RecordInfo :=
  match l with
  | [] => [x]
  | y :: l' =>
      if tuple_lt (sort_key y) (sort_key x)
      then y :: insert_by_key x l'
      else x :: y :: l'
  end.

Fixpoint sorted (l : list RecordInfo) : list RecordInfo :=
  match l with
  | [] => []
  | x :: l' => insert_by_key x (sorted l')
  end.

(** ** Snapshot builder (lines 128-139 of [check_for_changes]) *)

(** The body of the [for record in all_records] loop. *)
Definition build_step (names_to_monitor : gset string)
    (current_records_state : Snapshot) (record : RawRecord) : Result Snapshot :=
  (name <-? getitem record "name" ;;
   if decide (name ∈ names_to_monitor) then
     subdomain <-? getitem record "name" ;;
     t <-? getitem record "type" ;;
     v <-? getitem record "value" ;;
     let record_info := {| type := t; value := v |} in
     let with_key :=
       if decide (subdomain ∈ dom current_records_state)
       then current_records_state
       else <[subdomain := []]> current_records_state in
     Ok (alter (λ l, l ++ [record_info]) subdomain with_key)
   else Ok current_records_state)%result.

Fixpoint build_loop (names_to_monitor : gset string)
    (current_records_state : Snapshot) (all_records : list RawRecord)
    : Result Snapshot :=
  match all_records with
  | [] => Ok current_records_state
  | record :: rest =>
      (next <-? build_step names_to_monitor current_records_state record ;;
       build_loop names_to_monitor next rest)%result
  end.

Definition build_state (names_to_monitor : gset string)
    (all_records : list RawRecord) : Result Snapshot :=
  build_loop names_to_monitor ∅ all_records.

(** ** The process state and its effects *)

(** One constructor per [print] of the embedded functions; the comment gives
    the line of [main.py].  The time stamp of line 120 is not kept. *)
Inductive LogLine :=
  | LogTelegramSent                               (* 58 *)
  | LogTelegramFailed (response_text : string)    (* 60 *)
  | LogTelegramNetworkError (e : string)          (* 62 *)
  | LogDnspodApiError (error_message : string)    (* 90 *)
  | LogDnspodNetworkError (e : string)            (* 94 *)
  | LogDnspodBadJson                              (* 97 *)
  | LogCheckStart (domain : string)               (* 120 *)
  | LogFetchFailed                                (* 125 *)
  | LogFirstRun                                   (* 143 *)
  | LogInitDone                                   (* 145 *)
  | LogChangeDetected                             (* 150 *)
  | LogSubdomainChanged (full_domain : string)    (* 162 *)
  | LogNoChange.                                  (* 182 *)

Global Instance LogLine_eq_dec : EqDecision LogLine.
Proof. solve_decision. Defined.

(** The lines printed by lines 141-182, the comparison against the stored
    state. *)
Definition detect_line (l : LogLine) : bool :=
  match l with
  | LogFirstRun | LogInitDone | LogChangeDetected
  | LogSubdomainChanged _ | LogNoChange
  | LogTelegramSent | LogTelegramFailed _ | LogTelegramNetworkError _ => true
  | _ => false
  end.

(** A call [requests.post(url, json=payload, timeout=5)] to the Bot API,
    answered or not. *)
Record TelegramPost := {
  url : string;
  chat_id : string;
  text : string;
  parse_mode : string;
}.

Global Instance TelegramPost_eq_dec : EqDecision TelegramPost.
Proof. solve_decision. Defined.

Record World := {
  previous_records_state : Snapshot;  (* the module-level global, line 10 *)
  stdout : list LogLine;
  telegram_posts : list TelegramPost;
}.

(** The world when the script starts: [previous_records_state = {}]. *)
Definition initial_world : World :=
  {| previous_records_state := ∅; stdout := []; telegram_posts := [] |}.

(** Computations that read and write the world and may raise; what was
    printed, posted and assigned before a raise stays. *)
Definition M (A : Type) : Type := World → Result A * World.

Definition ret {A} (a : A) : M A := λ w, (Ok a, w).

Definition bind {A B} (m : M A) (k : A → M B) : M B :=
  λ w, match m w with
       | (Ok a, w') => k a w'
       | (Raise e, w') => (Raise e, w')
       end.

Definition lift {A} (r : Result A) : M A := λ w, (r, w).

Declare Scope monad_scope.
Delimit Scope monad_scope with M.
Notation "x <- m ;; k" := (bind m (λ x, k))
  (at level 100, m at next level, right associativity) : monad_scope.
Notation "m ;; k" := (bind m (λ _, k))
  (at level 100, right associativity) : monad_scope.

Definition print (l : LogLine) : M unit :=
  λ w, (Ok tt, {| previous_records_state := previous_records_state w;
                  stdout := stdout w ++ [l];
                  telegram_posts := telegram_posts w |}).

Definition read_previous_records_state : M Snapshot :=
  λ w, (Ok (previous_records_state w), w).

Definition assign_previous_records_state (s : Snapshot) : M unit :=
  λ w, (Ok tt, {| previous_records_state := s;
                  stdout := stdout w;
                  telegram_posts := telegram_posts w |}).

Definition record_post (p : TelegramPost) : M unit :=
  λ w, (Ok tt, {| previous_records_state := previous_records_state w;
                  stdout := stdout w;
                  telegram_posts := telegram_posts w ++ [p] |}).

Definition posts_so_far : M nat := λ w, (Ok (length (telegram_posts w)), w).

(** ** Configuration (the keys [load_config] requires)

    [check_interval_seconds] only sets the sleep between two cycles and is
    left out. *)

Record Config := {
  domain : string;
  token : string;
  names : list string;
  telegram_bot_token : string;
  telegram_chat_id : string;
}.

(** ** [send_telegram_message] *)

(** What the Bot API call comes back with, for the two failures the
    function handles: a [RequestException] is raised (line 61), or there is
    a response, of which the function reads [status_code], the truth value of
    [json().get("ok")] (only when the status is 200) and [text].

    Outside this type: a response with status 200 whose body [json()] turns
    into something else than an object, on which [.get] raises an
    [AttributeError] that line 61 does not catch.  What is proved of
    [send_telegram_message] and of its callers is proved for the answers of
    this type. *)
Inductive TelegramAnswer :=
  | TelegramRequestException (e : string)
  | TelegramResponse (status_code : Z) (ok : bool) (response_text : string).

(** The answer to the n-th post of the process. *)
Definition TelegramOracle := nat → TelegramAnswer.

Definition send_telegram_message (tg : TelegramOracle)
    (bot_token chat_id message : string) : M unit :=
  (let url := "https://api.telegram.org/bot" +:+ bot_token +:+ "/sendMessage" in
   let payload := {| url := url; chat_id := chat_id; text := message;
                     parse_mode := "Markdown" |} in
   n <- posts_so_far ;;
   record_post payload ;;
   match tg n with
   | TelegramResponse status_code ok response_text =>
       if bool_decide (status_code = 200%Z) && ok
       then print LogTelegramSent
       else print (LogTelegramFailed response_text)
   | TelegramRequestException e => print (LogTelegramNetworkError e)
   end)%M.

(** ** [get_dnspod_records] *)

(** What the Record.List call comes back with: a [RequestException] (from
    [requests.post] or from [raise_for_status] on a status that is not 2xx),
    a body that is not JSON, or a JSON object, of which the function reads
    [status.code], [status.message] and [records].  A missing [status] reads
    as [{}]: no code and no message; [records] is a list of objects, or is
    missing.  Both handlers return [None]; they differ in the line they
    print.

    Outside this type: a JSON body, or a [status], that is not an object, on
    which [.get] raises an [AttributeError] that no handler catches; and a
    [records] that is [null] or not a list ([null] with the code "1" makes
    the function return [None] without a line).  What is proved of
    [get_dnspod_records] and of its callers is proved for the answers of
    this type. *)
Inductive DnspodAnswer :=
  | DnspodRequestException (e : string)
  | DnspodJSONDecodeError
  | DnspodJson (status_code : option string) (status_message : option string)
      (records : option (list RawRecord)).

Definition get_dnspod_records (answer : DnspodAnswer)
    : M (option (list RawRecord)) :=
  (match answer with
   | DnspodJson status_code status_message records =>
       if decide (status_code = Some "1")
       then ret (Some (default [] records))
       else
         let error_message := default "未知API错误" status_message in
         print (LogDnspodApiError error_message) ;;
         ret None
   | DnspodRequestException e =>
       print (LogDnspodNetworkError e) ;; ret None
   | DnspodJSONDecodeError =>
       print LogDnspodBadJson ;; ret None
   end)%M.

(** ** [format_records_for_display] *)

Definition newline : string := String (Ascii.ascii_of_nat 10) "".  (* "\n" *)

Definition format_records_for_display (records_list : list RecordInfo) : string :=
  match records_list with
  | [] => "无"
  | _ =>
      let sorted_records := sorted records_list in
      String.concat newline
        (map (λ r, "  - 类型: " +:+ type r +:+ ", 值: " +:+ value r)
             sorted_records)
  end.

(** ** Change detector (lines 141-182 of [check_for_changes]) *)

(** The order in which [for name in all_monitored_names] visits the set:
    some enumeration of its elements, each once. *)
Record SetOrder := {
  iteration : gset string → list string;
  iteration_perm : ∀ s, iteration s ≡ₚ elements s;
}.

Definition elements_order : SetOrder :=
  {| iteration := elements; iteration_perm := λ s, reflexivity (elements s) |}.

(** One pass through the branch of line 160: the subdomain whose sorted
    lists differ, with [old_list] and [new_list]. *)
Record ChangeEvent := {
  subdomainName : string;
  oldRecords : list RecordInfo;
  newRecords : list RecordInfo;
}.

Global Instance ChangeEvent_eq_dec : EqDecision ChangeEvent.
Proof. solve_decision. Defined.

(** The message of lines 165-170. *)
Definition change_message (full_domain : string)
    (old_list new_list : list RecordInfo) : string :=
  "⚠️ *DNSPod 记录变更通知*" +:+ newline +:+ newline +:+
  "*域名*: `" +:+ full_domain +:+ "`" +:+ newline +:+ newline +:+
  "*旧记录*:" +:+ newline +:+ format_records_for_display old_list
    +:+ newline +:+ newline +:+
  "*新记录*:" +:+ newline +:+ format_records_for_display new_list.

(** [for x in l: body(x)].  The Python loop returns nothing; the value
    returned here collects what the passes report, in order. *)
Fixpoint for_each {A B} (l : list A) (body : A → M (list B)) : M (list B) :=
  match l with
  | [] => ret []
  | x :: l' =>
      (here <- body x ;;
       rest <- for_each l' body ;;
       ret (here ++ rest))%M
  end.

(** The body of the loop of lines 155-177. *)
Definition compare_name (config : Config) (tg : TelegramOracle)
    (current_records_state : Snapshot) (name : string) : M (list ChangeEvent) :=
  (previous <- read_previous_records_state ;;
   let old_list := sorted (get_records previous name) in
   let new_list := sorted (get_records current_records_state name) in
   if decide (old_list ≠ new_list) then
     let full_domain := name +:+ "." +:+ domain config in
     print (LogSubdomainChanged full_domain) ;;
     let message := change_message full_domain old_list new_list in
     send_telegram_message tg (telegram_bot_token config)
       (telegram_chat_id config) message ;;
     ret [ {| subdomainName := name; oldRecords := old_list;
              newRecords := new_list |} ]
   else ret [])%M.

(** Lines 141-182.  The Python function returns [None]; the value returned
    here is the list of the changes it notified, in the order of the
    notifications. *)
Definition detect (config : Config) (order : SetOrder) (tg : TelegramOracle)
    (current_records_state : Snapshot) : M (list ChangeEvent) :=
  (previous <- read_previous_records_state ;;
   if decide (previous = ∅) then          (* [not previous_records_state] *)
     print LogFirstRun ;;
     assign_previous_records_state current_records_state ;;
     print LogInitDone ;;
     ret []
   else if decide (current_records_state ≠ previous) then
     print LogChangeDetected ;;
     let all_monitored_names := dom previous ∪ dom current_records_state in
     events <- for_each (iteration order all_monitored_names)
                 (compare_name config tg current_records_state) ;;
     assign_previous_records_state current_records_state ;;
     ret events
   else
     print LogNoChange ;;
     ret [])%M.

(** ** [check_for_changes] *)

Definition check_for_changes (config : Config) (order : SetOrder)
    (tg : TelegramOracle) (answer : DnspodAnswer) : M (list ChangeEvent) :=
  (let names_to_monitor : gset string := list_to_set (names config) in
   print (LogCheckStart (domain config)) ;;
   all_records <- get_dnspod_records answer ;;
   match all_records with
   | None => print LogFetchFailed ;; ret []
   | Some all_records =>
       current_records_state <- lift (build_state names_to_monitor all_records) ;;
       detect config order tg current_records_state
   end)%M.

(** ** The cycles of the polling loop (lines 197-198)

    One [check_for_changes] per answer of the provider.  [Raise e] says that
    [e] escaped a cycle: the later answers are not used, and [e] is on its
    way to the handler of line 203, which [main_block] adds.  The
    [time.sleep] of line 199 only waits, for the numbers the configuration is
    meant to hold (10 by default), and is not kept.  The value returned is
    the list of the changes notified, cycle by cycle. *)
Fixpoint main_loop (config : Config) (order : SetOrder) (tg : TelegramOracle)
    (answers : list DnspodAnswer) : M (list (list ChangeEvent)) :=
  match answers with
  | [] => ret []
  | answer :: rest =>
      (events <- check_for_changes config order tg answer ;;
       later <- main_loop config order tg rest ;;
       ret (events :: later))%M
  end.

(** ** Well-formed snapshots *)

(** The first-run test of line 142 fails: a baseline is in place. *)
Definition initialized (w : World) : Prop := previous_records_state w ≠ ∅.

(** The raw record carries the three fields the builder may read. *)
Definition well_formed (r : RawRecord) : Prop :=
  is_Some (r !! "name") ∧ is_Some (r !! "type") ∧ is_Some (r !! "value").

(** Every key is a monitored name and holds at least one record. *)
Definition snapshot_wf (names_to_monitor : gset string) (s : Snapshot) : Prop :=
  map_Forall (λ name l, name ∈ names_to_monitor ∧ l ≠ []) s.

Global Instance snapshot_wf_dec names_to_monitor s :
  Decision (snapshot_wf names_to_monitor s).
Proof. unfold snapshot_wf. apply _. Defined.

Global Instance initialized_dec w : Decision (initialized w).
Proof. unfold initialized. apply _. Defined.

Global Instance well_formed_dec r : Decision (well_formed r).
Proof. unfold well_formed. apply _. Defined.


(** ** Sample data *)

Definition raw (n t v : string) : RawRecord :=
  <["name" := n]> (<["type" := t]> (<["value" := v]> (<["ttl" := "600"]> ∅))).

Definition sample_config : Config :=
  {| domain := "example.com"; token := "id,secret"; names := ["www"; "api"];
     telegram_bot_token := "bot-token"; telegram_chat_id := "42" |}.

Definition records_ok (l : list RawRecord) : DnspodAnswer :=
  DnspodJson (Some "1") None (Some l).

Definition always_sent : TelegramOracle := λ _, TelegramResponse 200 true "{}".
Definition always_down : TelegramOracle := λ _, TelegramRequestException "timeout".

Definition A1 := {| type := "A"; value := "1.1.1.1" |}.
Definition A2 := {| type := "A"; value := "2.2.2.2" |}.

(** ** Vocabulary of the properties *)

(** [x] may stand before [y] in a sorted list: the key of [y] is not below
    the key of [x]. *)
Definition key_le (x y : RecordInfo) : Prop :=
  tuple_lt (sort_key y) (sort_key x) = false.

(** The raw record is listed under the subdomain [n]. *)
Definition named (n : string) (r : RawRecord) : Prop := r !! "name" = Some n.

Global Instance named_dec n r : Decision (named n r).
Proof. unfold named. apply _. Defined.

(** The record info holds the type and the value of the raw record. *)
Definition carries (r : RawRecord) (i : RecordInfo) : Prop :=
  r !! "type" = Some (type i) ∧ r !! "value" = Some (value i).

(** A lookup of the builder fails on the raw record. *)
Definition lookup_fails (names_to_monitor : gset string) (r : RawRecord) : Prop :=
  r !! "name" = None ∨
  ∃ n, r !! "name" = Some n ∧ n ∈ names_to_monitor ∧
       (r !! "type" = None ∨ r !! "value" = None).

(** Drop the type and the value of a record that names a subdomain outside
    the monitored set. *)
Definition erase_unmonitored (names_to_monitor : gset string) (r : RawRecord)
    : RawRecord :=
  match r !! "name" with
  | Some n =>
      if decide (n ∈ names_to_monitor) then r
      else delete "type" (delete "value" r)
  | None => r
  end.

(** What one pass of the loop reports for [name]. *)
Definition change_of (previous current : Snapshot) (name : string)
    : option ChangeEvent :=
  let old_list := sorted (get_records previous name) in
  let new_list := sorted (get_records current name) in
  if decide (old_list ≠ new_list)
  then Some {| subdomainName := name; oldRecords := old_list;
               newRecords := new_list |}
  else None.

Definition changes (previous current : Snapshot) (visited : list string)
    : list ChangeEvent :=
  omap (change_of previous current) visited.

(** The post that notifies a change. *)
Definition notification (config : Config) (e : ChangeEvent) : TelegramPost :=
  {| url := "https://api.telegram.org/bot" +:+ telegram_bot_token config
            +:+ "/sendMessage";
     chat_id := telegram_chat_id config;
     text := change_message (subdomainName e +:+ "." +:+ domain config)
               (oldRecords e) (newRecords e);
     parse_mode := "Markdown" |}.

(** The world after some more lines were printed. *)
Definition printed (w : World) (lines : list LogLine) : World :=
  {| previous_records_state := previous_records_state w;
     stdout := stdout w ++ lines;
     telegram_posts := telegram_posts w |}.

(** The world with a given stored state, nothing printed and nothing
    posted. *)
Definition world_with (s : Snapshot) : World :=
  {| previous_records_state := s; stdout := []; telegram_posts := [] |}.

(** The stored state is well formed and is either the empty dict the script
    starts with or a snapshot the builder returned. *)
Definition baseline_ok (config : Config) (s : Snapshot) : Prop :=
  snapshot_wf (list_to_set (names config)) s ∧
  (s = ∅ ∨
   ∃ raw_records, build_state (list_to_set (names config)) raw_records = Ok s).

(** ** [load_config] (lines 13-43) *)

(** What [json.load] returns.  A number keeps its literal: the script never
    computes with one. *)
#[warnings="-register-all"]
Inductive Json :=
  | JNull
  | JBool (b : bool)
  | JNumber (literal : string)
  | JString (s : string)
  | JArray (items : list Json)
  | JObject (members : gmap string Json).

(** What the script finds at [config.json]: no file, a file that [open] or
    the decoder refuses, text that is not JSON, or a JSON value. *)
Inductive ConfigFile :=
  | FileMissing
  | FileUnreadable (e : string)
  | FileNotJson
  | FileJson (v : Json).

(** The exceptions the handler of line 41 catches. *)
Inductive ConfigError :=
  | ReadError (e : string)
  | TypeError.

(** One constructor per [print] of [load_config]. *)
Inductive ConfigLine :=
  | LogConfigMissing (config_path : string)       (* 19 *)
  | LogConfigKeyMissing (key : string)            (* 30 *)
  | LogConfigNotJson (config_path : string)       (* 39 *)
  | LogConfigUnknownError (e : ConfigError).      (* 42 *)

(** How the call ends: [return config] or [sys.exit(status)]. *)
Inductive Loaded :=
  | Returned (config : Json)
  | SysExit (status : Z).

(** [p in s] on two strings: [p] occurs in [s]. *)
Fixpoint occurs_in (p s : string) : bool :=
  String.prefix p s ||
  match s with
  | "" => false
  | String _ s' => occurs_in p s'
  end.

Definition is_string (key : string) (v : Json) : bool :=
  match v with
  | JString s => bool_decide (s = key)
  | _ => false
  end.

(** [key in config]: a key of a dict, an element of a list, a part of a
    string; [None], a boolean and a number are not iterable. *)
Definition json_contains (key : string) (config : Json) : ConfigError + bool :=
  match config with
  | JObject members => inr (bool_decide (key ∈ dom members))
  | JArray items => inr (existsb (is_string key) items)
  | JString s => inr (occurs_in key s)
  | JNull | JBool _ | JNumber _ => inl TypeError
  end.

(** [config[key] = 10]: only a dict takes a string subscript. *)
Definition json_setitem (key : string) (config : Json) : ConfigError + Json :=
  match config with
  | JObject members => inr (JObject (<[key := JNumber "10"]> members))
  | _ => inl TypeError
  end.

Definition config_path : string := "config.json".

Definition required_keys : list string :=
  ["domain"; "token"; "names"; "telegram_bot_token"; "telegram_chat_id"].

(** The loop of lines 28-31: [None] when every key is there, else what the
    loop ends the call with. *)
Fixpoint check_required (keys : list string) (config : Json)
    : option (list ConfigLine * Loaded) :=
  match keys with
  | [] => None
  | key :: rest =>
      match json_contains key config with
      | inl e => Some ([LogConfigUnknownError e], SysExit 1)
      | inr false => Some ([LogConfigKeyMissing key], SysExit 1)
      | inr true => check_required rest config
      end
  end.

(** The lines printed and how the call ends.  [sys.exit] raises
    [SystemExit], which none of the two handlers catches. *)
Definition load_config (file : ConfigFile) : list ConfigLine * Loaded :=
  match file with
  | FileMissing => ([LogConfigMissing config_path], SysExit 1)
  | FileUnreadable e => ([LogConfigUnknownError (ReadError e)], SysExit 1)
  | FileNotJson => ([LogConfigNotJson config_path], SysExit 1)
  | FileJson config =>
      match check_required required_keys config with
      | Some ended => ended
      | None =>
          match json_contains "check_interval_seconds" config with
          | inl e => ([LogConfigUnknownError e], SysExit 1)
          | inr true => ([], Returned config)
          | inr false =>
              match json_setitem "check_interval_seconds" config with
              | inl e => ([LogConfigUnknownError e], SysExit 1)
              | inr config' => ([], Returned config')
              end
          end
      end
  end.

(** ** More vocabulary *)

(** The key whose lookup fails first on the raw record, if any: [name], then
    for a monitored name [type], then [value]. *)
Definition missing_key (names_to_monitor : gset string) (r : RawRecord)
    : option string :=
  match r !! "name" with
  | None => Some "name"
  | Some n =>
      if decide (n ∈ names_to_monitor) then
        match r !! "type", r !! "value" with
        | None, _ => Some "type"
        | Some _, None => Some "value"
        | Some _, Some _ => None
        end
      else None
  end.

(** The record info of a raw record that has a type and a value. *)
Definition record_info_of (r : RawRecord) : option RecordInfo :=
  match r !! "type", r !! "value" with
  | Some t, Some v => Some {| type := t; value := v |}
  | _, _ => None
  end.

(** Two snapshots put together: under each name the records of the first,
    then those of the second. *)
Definition append_snapshots (s1 s2 : Snapshot) : Snapshot :=
  union_with (λ l1 l2, Some (l1 ++ l2)) s1 s2.

(** Two worlds with the same stored state and the same posts. *)
Definition same_state (w1 w2 : World) : Prop :=
  previous_records_state w1 = previous_records_state w2 ∧
  telegram_posts w1 = telegram_posts w2.

(** All the changes a run notified, in order. *)
Definition all_events (r : Result (list (list ChangeEvent)))
    : Result (list ChangeEvent) :=
  match r with
  | Ok per_cycle => Ok (concat per_cycle)
  | Raise e => Raise e
  end.

(** The line [send_telegram_message] prints on an answer. *)
Definition telegram_line (answer : TelegramAnswer) : LogLine :=
  match answer with
  | TelegramRequestException e => LogTelegramNetworkError e
  | TelegramResponse status_code ok response_text =>
      if bool_decide (status_code = 200%Z) && ok
      then LogTelegramSent
      else LogTelegramFailed response_text
  end.

(** The lines of the changes [events], the first of which is notified by
    the post number [n] of the process: for each one the line of the
    subdomain, then the line of the answer to its post. *)
Fixpoint change_lines (config : Config) (tg : TelegramOracle) (n : nat)
    (events : list ChangeEvent) : list LogLine :=
  match events with
  | [] => []
  | e :: rest =>
      LogSubdomainChanged (subdomainName e +:+ "." +:+ domain config)
      :: telegram_line (tg n)
      :: change_lines config tg (S n) rest
  end.

(** ** The [try] block of the script (lines 196-205) *)

(** The line the handler of line 203 prints. *)
Inductive HandlerLine :=
  | LogUncaughtException (e : Exception).         (* 204 *)

(** Where the block stands after the cycles of some answers: still in the
    loop, or out of it because an exception escaped a cycle, the handler
    having printed its line, after those of the [stdout] of the world, and
    called [sys.exit] with the status.  The exit on Ctrl+C of lines 200-202
    answers a signal and is not kept. *)
Inductive MainBlock :=
  | StillLooping
  | Exited (line : HandlerLine) (status : Z).

Definition main_block (config : Config) (order : SetOrder) (tg : TelegramOracle)
    (answers : list DnspodAnswer) (w : World) : MainBlock * World :=
  match main_loop config order tg answers w with
  | (Ok _, w') => (StillLooping, w')
  | (Raise e, w') => (Exited (LogUncaughtException e) 1, w')
  end.

(** * Properties *)

(** ** The order of [sorted] *)

Lemma ltb_false_le (a b : string) : String.ltb a b = false ↔ String.le b a.
Proof.
  unfold String.le, String.ltb, String.leb.
  rewrite (String.compare_antisym a b).
  destruct (String.compare b a); simpl; intuition congruence.
Qed.

Lemma key_le_cases (x y : RecordInfo) :
  key_le x y ↔
    (type x = type y ∧ String.le (value x) (value y)) ∨
    (type x ≠ type y ∧ String.le (type x) (type y)).
Proof.
  unfold key_le, tuple_lt, sort_key; simpl.
  destruct (decide (type y = type x)) as [E|N]; rewrite ltb_false_le.
  - split; [intros; left; split; [done | done] | intros [[_ ?]|[? _]]; [done | congruence]].
  - split; [intros; right; split; [congruence | done] | intros [[? _]|[_ ?]]; [congruence | done]].
Qed.

Global Instance key_le_trans : Transitive key_le.
Proof.
  intros x y z. rewrite !key_le_cases.
  intros [[E1 L1]|[N1 L1]] [[E2 L2]|[N2 L2]].
  - left. split; [congruence | by etrans].
  - right. split; [congruence | by rewrite E1].
  - right. split; [congruence | by rewrite <- E2].
  - right. split; [| by etrans].
    intros E. rewrite E in L1.
    apply N2. by apply (anti_symm String.le).
Qed.

Global Instance key_le_antisymm : AntiSymm (=) key_le.
Proof.
  intros [tx vx] [ty vy]. rewrite !key_le_cases; simpl.
  intros [[E1 L1]|[N1 L1]] [[E2 L2]|[N2 L2]]; try congruence.
  - f_equal; [done | by apply (anti_symm String.le)].
  - exfalso. apply N1. by apply (anti_symm String.le).
Qed.

Lemma key_le_total (x y : RecordInfo) : key_le x y ∨ key_le y x.
Proof.
  rewrite !key_le_cases.
  destruct (decide (type x = type y)) as [E|N].
  - destruct (total String.le (value x) (value y)); [left | right]; left; done.
  - destruct (total String.le (type x) (type y)); [left | right]; right;
      (split; [congruence | done]).
Qed.

Lemma insert_by_key_perm (x : RecordInfo) (l : list RecordInfo) :
  insert_by_key x l ≡ₚ x :: l.
Proof.
  induction l as [|y l IH]; simpl; [done|].
  destruct (tuple_lt (sort_key y) (sort_key x)); [|done].
  rewrite IH. apply perm_swap.
Qed.

Lemma sorted_perm (l : list RecordInfo) : sorted l ≡ₚ l.
Proof.
  induction l as [|x l IH]; simpl; [done|].
  by rewrite insert_by_key_perm, IH.
Qed.

Lemma insert_by_key_Sorted (x : RecordInfo) (l : list RecordInfo) :
  Sorted key_le l → Sorted key_le (insert_by_key x l).
Proof.
  induction l as [|y l IH]; simpl; intros HS.
  - by repeat constructor.
  - apply Sorted_inv in HS as [HS Hhd].
    destruct (tuple_lt (sort_key y) (sort_key x)) eqn:Hlt.
    + constructor; [by apply IH|].
      assert (key_le y x) as Hyx.
      { destruct (key_le_total y x) as [?|Hxy]; [done|].
        unfold key_le in Hxy. congruence. }
      destruct l as [|z l]; simpl.
      * by constructor.
      * destruct (tuple_lt (sort_key z) (sort_key x)); constructor; [|done].
        by inversion Hhd.
    + constructor; [by constructor|]. by constructor.
Qed.

Lemma sorted_Sorted (l : list RecordInfo) : Sorted key_le (sorted l).
Proof.
  induction l as [|x l IH]; simpl; [constructor|].
  by apply insert_by_key_Sorted.
Qed.

(** Two lists have the same sorted form exactly when they hold the same
    records, each the same number of times. *)
Lemma sorted_eq_iff_perm (l1 l2 : list RecordInfo) :
  sorted l1 = sorted l2 ↔ l1 ≡ₚ l2.
Proof.
  split.
  - intros E. by rewrite <- (sorted_perm l1), E, sorted_perm.
  - intros HP. apply (Sorted_unique key_le); try apply sorted_Sorted.
    by rewrite !sorted_perm.
Qed.

(** ** The snapshot builder *)

Lemma build_step_cases names_to_monitor (cur : Snapshot) (r : RawRecord) :
  build_step names_to_monitor cur r =
    match r !! "name" with
    | None => Raise (KeyError "name")
    | Some n =>
        if decide (n ∈ names_to_monitor) then
          match r !! "type", r !! "value" with
          | None, _ => Raise (KeyError "type")
          | Some _, None => Raise (KeyError "value")
          | Some t, Some v =>
              Ok (<[n := get_records cur n ++ [{| type := t; value := v |}]]> cur)
          end
        else Ok cur
    end.
Proof.
  unfold build_step, getitem.
  destruct (r !! "name") as [n|]; simpl; [|done].
  destruct (decide (n ∈ names_to_monitor)); simpl; [|done].
  destruct (r !! "type") as [t|]; simpl; [|done].
  destruct (r !! "value") as [v|]; simpl; [|done].
  f_equal. unfold get_records. apply map_eq. intros m.
  destruct (decide (n ∈ dom cur)) as [Hin|Hnin].
  - apply elem_of_dom in Hin as [l Hl].
    destruct (decide (n = m)) as [<-|Hne].
    + by rewrite lookup_alter_eq, lookup_insert_eq, Hl.
    + by rewrite lookup_alter_ne, lookup_insert_ne.
  - apply not_elem_of_dom in Hnin.
    destruct (decide (n = m)) as [<-|Hne].
    + by rewrite lookup_alter_eq, !lookup_insert_eq, Hnin.
    + by rewrite lookup_alter_ne, !lookup_insert_ne.
Qed.

Lemma build_step_raise_iff names_to_monitor (cur : Snapshot) (r : RawRecord) :
  is_raise (build_step names_to_monitor cur r) ↔ lookup_fails names_to_monitor r.
Proof.
  rewrite build_step_cases. unfold lookup_fails.
  destruct (r !! "name") as [n|] eqn:Hn; simpl; [|by intuition].
  destruct (decide (n ∈ names_to_monitor)) as [Hin|Hnin]; simpl.
  - destruct (r !! "type") as [t|], (r !! "value") as [v|]; simpl;
      split; try done; try (intros _; right; exists n; by intuition).
    intros [?|(n' & ? & _ & [?|?])]; congruence.
  - split; [done|]. intros [?|(n' & ? & ? & _)]; congruence.
Qed.

Lemma build_loop_raise_iff names_to_monitor (raw_records : list RawRecord) :
  ∀ cur : Snapshot,
    is_raise (build_loop names_to_monitor cur raw_records) ↔
    Exists (lookup_fails names_to_monitor) raw_records.
Proof.
  induction raw_records as [|r rest IH]; intros cur; simpl.
  - rewrite Exists_nil. done.
  - rewrite Exists_cons, <- (build_step_raise_iff _ cur r).
    destruct (build_step names_to_monitor cur r) as [next|e]; simpl.
    + rewrite IH. by intuition.
    + by intuition.
Qed.

Lemma build_step_erase names_to_monitor (cur : Snapshot) (r : RawRecord) :
  build_step names_to_monitor cur (erase_unmonitored names_to_monitor r) =
  build_step names_to_monitor cur r.
Proof.
  rewrite !build_step_cases. unfold erase_unmonitored.
  destruct (r !! "name") as [n|] eqn:Hn; [|by rewrite Hn].
  destruct (decide (n ∈ names_to_monitor)) as [Hin|Hnin].
  - rewrite Hn. by destruct (decide (n ∈ names_to_monitor)).
  - rewrite !lookup_delete_ne, Hn by done.
    by destruct (decide (n ∈ names_to_monitor)).
Qed.

Lemma build_loop_erase names_to_monitor (raw_records : list RawRecord) :
  ∀ cur : Snapshot,
    build_loop names_to_monitor cur
      (erase_unmonitored names_to_monitor <$> raw_records) =
    build_loop names_to_monitor cur raw_records.
Proof.
  induction raw_records as [|r rest IH]; intros cur; simpl; [done|].
  rewrite build_step_erase.
  destruct (build_step names_to_monitor cur r); simpl; [apply IH | done].
Qed.

Lemma build_step_wf names_to_monitor (cur next : Snapshot) (r : RawRecord) :
  build_step names_to_monitor cur r = Ok next →
  snapshot_wf names_to_monitor cur → snapshot_wf names_to_monitor next.
Proof.
  rewrite build_step_cases. intros Hstep Hwf.
  destruct (r !! "name") as [n|]; [|done].
  destruct (decide (n ∈ names_to_monitor)) as [Hin|Hnin]; [|by simplify_eq].
  destruct (r !! "type") as [t|], (r !! "value") as [v|]; simplify_eq.
  intros m l. rewrite lookup_insert. case_decide as Hm.
  - intros [= <-]. subst m. split; [done|]. by destruct (get_records cur n).
  - apply Hwf.
Qed.

Lemma build_loop_wf names_to_monitor (raw_records : list RawRecord) :
  ∀ cur snap : Snapshot,
    build_loop names_to_monitor cur raw_records = Ok snap →
    snapshot_wf names_to_monitor cur → snapshot_wf names_to_monitor snap.
Proof.
  induction raw_records as [|r rest IH]; intros cur snap; simpl.
  - by intros [= <-].
  - destruct (build_step names_to_monitor cur r) as [next|e] eqn:Hstep; simpl; [|done].
    intros Hloop Hwf. eapply IH; [done|]. by eapply build_step_wf.
Qed.

Lemma build_state_wf names_to_monitor (raw_records : list RawRecord) (snap : Snapshot) :
  build_state names_to_monitor raw_records = Ok snap →
  snapshot_wf names_to_monitor snap.
Proof.
  intros H. eapply build_loop_wf; [done|]. intros n l. by rewrite lookup_empty.
Qed.

Lemma build_loop_groups names_to_monitor (raw_records : list RawRecord) :
  Forall well_formed raw_records →
  ∀ cur : Snapshot, ∃ snap : Snapshot,
    build_loop names_to_monitor cur raw_records = Ok snap ∧
    ∀ n, ∃ l,
      Forall2 carries (filter (named n) raw_records) l ∧
      snap !! n =
        if decide (n ∈ names_to_monitor ∧ l ≠ [])
        then Some (get_records cur n ++ l) else cur !! n.
Proof.
  induction 1 as [|r rest Hr _ IH]; intros cur; simpl.
  - exists cur. split; [done|]. intros n. exists []. split; [constructor|].
    case_decide as H; [by destruct H | done].
  - rewrite build_step_cases.
    destruct Hr as ([m Hm] & [t Ht] & [v Hv]). rewrite Hm, Ht, Hv.
    set (i := {| type := t; value := v |}).
    assert (carries r i) as Hri by done.
    destruct (decide (m ∈ names_to_monitor)) as [Hin|Hnin]; simpl.
    + destruct (IH (<[m := get_records cur m ++ [i]]> cur)) as (snap & Hloop & Hsnap).
      exists snap. split; [done|]. intros n.
      destruct (Hsnap n) as (l & Hl & Hlook).
      rewrite filter_cons. unfold get_records in *.
      destruct (decide (named n r)) as [Hn|Hn].
      * assert (m = n) as -> by (unfold named in Hn; congruence).
        exists (i :: l). split; [by constructor|].
        rewrite Hlook, lookup_insert_eq; simpl.
        destruct (decide (n ∈ names_to_monitor ∧ i :: l ≠ [])) as [_|Hc];
          [|by destruct Hc].
        case_decide as Hc; [by rewrite <- app_assoc | ].
        destruct l; [done|]. by destruct Hc.
      * assert (m ≠ n) by (unfold named in Hn; congruence).
        exists l. split; [done|].
        by rewrite Hlook, lookup_insert_ne.
    + destruct (IH cur) as (snap & Hloop & Hsnap).
      exists snap. split; [done|]. intros n.
      destruct (Hsnap n) as (l & Hl & Hlook).
      rewrite filter_cons.
      destruct (decide (named n r)) as [Hn|Hn].
      * assert (m = n) as -> by (unfold named in Hn; congruence).
        exists (i :: l). split; [by constructor|].
        rewrite Hlook. rewrite !decide_False; [done | tauto | tauto].
      * by exists l.
Qed.

(** C6: for raw records that carry a name, a type and a value, the builder
    returns a snapshot; under each name it holds one record info per raw
    record of that name, in the order of the list, with the type and the
    value of the raw record; and a name is a key only when it is monitored
    and has at least one raw record. *)
Theorem build_state_groups_by_name (names_to_monitor : gset string)
    (all_records : list RawRecord) :
  Forall well_formed all_records →
  ∃ snap : Snapshot,
    build_state names_to_monitor all_records = Ok snap ∧
    ∀ n, ∃ l,
      Forall2 carries (filter (named n) all_records) l ∧
      snap !! n = if decide (n ∈ names_to_monitor ∧ l ≠ []) then Some l else None.
Proof.
  intros Hwf.
  destruct (build_loop_groups names_to_monitor all_records Hwf ∅)
    as (snap & Hbuild & Hsnap).
  exists snap. split; [done|]. intros n.
  destruct (Hsnap n) as (l & Hl & Hlook). exists l. split; [done|].
  rewrite Hlook. unfold get_records. by rewrite lookup_empty.
Qed.

Lemma build_state_groups_by_name_witness :
  ∃ snap : Snapshot,
    build_state {[ "www"; "api" ]}
      [raw "www" "A" "2.2.2.2"; raw "mail" "MX" "mx.example.com.";
       raw "www" "A" "1.1.1.1"; raw "www" "A" "2.2.2.2"] = Ok snap ∧
    ∀ n, ∃ l,
      Forall2 carries
        (filter (named n)
           [raw "www" "A" "2.2.2.2"; raw "mail" "MX" "mx.example.com.";
            raw "www" "A" "1.1.1.1"; raw "www" "A" "2.2.2.2"]) l ∧
      snap !! n =
        if decide (n ∈ ({[ "www"; "api" ]} : gset string) ∧ l ≠ [])
        then Some l else None.
Proof.
  apply (build_state_groups_by_name {[ "www"; "api" ]}
           [raw "www" "A" "2.2.2.2"; raw "mail" "MX" "mx.example.com.";
            raw "www" "A" "1.1.1.1"; raw "www" "A" "2.2.2.2"]).
  apply (bool_decide_unpack _). vm_compute. exact I.
Defined.

(** C9: the result of the builder does not depend on the type and the value
    of the records that name a subdomain outside the monitored set; and the
    builder raises exactly when some record has no name, or names a monitored
    subdomain and has no type or no value. *)
Theorem build_state_lookup_failures (names_to_monitor : gset string)
    (all_records : list RawRecord) :
  build_state names_to_monitor (erase_unmonitored names_to_monitor <$> all_records)
    = build_state names_to_monitor all_records ∧
  (is_raise (build_state names_to_monitor all_records) ↔
   Exists (lookup_fails names_to_monitor) all_records).
Proof.
  split; [apply build_loop_erase | apply build_loop_raise_iff].
Qed.

(** ** The change detector *)

Lemma bind_ok {A B} (m : M A) (k : A → M B) (w w' : World) (a : A) :
  m w = (Ok a, w') → bind m k w = k a w'.
Proof. unfold bind. by intros ->. Qed.

Lemma compare_name_spec config tg (current : Snapshot) (name : string) (w : World) :
  let events := option_list (change_of (previous_records_state w) current name) in
  ∃ w' lines,
    compare_name config tg current name w = (Ok events, w') ∧
    previous_records_state w' = previous_records_state w ∧
    telegram_posts w' = telegram_posts w ++ (notification config <$> events) ∧
    stdout w' = stdout w ++ lines ∧ Forall detect_line lines.
Proof.
  unfold compare_name, change_of, bind, read_previous_records_state; simpl.
  case_decide as Hd; simpl.
  - unfold send_telegram_message, bind, posts_so_far, record_post, print; simpl.
    destruct (tg _) as [e|status_code ok response_text]; simpl;
      [|destruct (bool_decide (status_code = 200%Z) && ok); simpl];
      (eexists _, [_; _]; split; [reflexivity|];
       split; [reflexivity|]; split; [reflexivity|];
       split; [by rewrite <- app_assoc | by repeat constructor]).
  - exists w, []. rewrite !app_nil_r. by repeat split.
Qed.

Lemma for_each_compare_spec config tg (current : Snapshot) (visited : list string) :
  ∀ w : World,
    let events := changes (previous_records_state w) current visited in
    ∃ w' lines,
      for_each visited (compare_name config tg current) w = (Ok events, w') ∧
      previous_records_state w' = previous_records_state w ∧
      telegram_posts w' = telegram_posts w ++ (notification config <$> events) ∧
      stdout w' = stdout w ++ lines ∧ Forall detect_line lines.
Proof.
  induction visited as [|name rest IH]; intros w; simpl.
  - exists w, []. rewrite !app_nil_r. by repeat split.
  - destruct (compare_name_spec config tg current name w)
      as (w1 & lines1 & Hrun & Hp & Ht & Hs & Hl).
    destruct (IH w1) as (w2 & lines2 & Hrun' & Hp' & Ht' & Hs' & Hl').
    exists w2, (lines1 ++ lines2).
    rewrite (bind_ok _ _ _ _ _ Hrun), (bind_ok _ _ _ _ _ Hrun').
    rewrite Hp in *. unfold ret, changes in *; simpl.
    split; [|split; [done|split; [|split]]].
    + do 2 f_equal. by destruct (change_of _ _ name).
    + rewrite Ht', Ht, <- app_assoc, <- fmap_app. do 2 f_equal.
      by destruct (change_of _ _ name).
    + by rewrite Hs', Hs, <- app_assoc.
    + by apply Forall_app.
Qed.

(** No name changes between a snapshot and itself. *)
Lemma changes_same (s : Snapshot) (visited : list string) : changes s s visited = [].
Proof.
  induction visited as [|n rest IH]; [done|].
  unfold changes in *; simpl. unfold change_of at 1.
  by rewrite decide_False by (by intros H; apply H).
Qed.

Lemma elem_of_changes (previous current : Snapshot) (visited : list string)
    (e : ChangeEvent) :
  e ∈ changes previous current visited ↔
    subdomainName e ∈ visited ∧
    oldRecords e = sorted (get_records previous (subdomainName e)) ∧
    newRecords e = sorted (get_records current (subdomainName e)) ∧
    oldRecords e ≠ newRecords e.
Proof.
  unfold changes. rewrite list_elem_of_omap. unfold change_of. split.
  - intros (n & Hn & Hc). case_decide; simplify_eq; simpl. done.
  - intros (Hn & Ho & Hnw & Hd). exists (subdomainName e). split; [done|].
    rewrite <- Ho, <- Hnw. rewrite decide_True by done. by destruct e.
Qed.

Lemma changes_names_NoDup (previous current : Snapshot) (visited : list string) :
  NoDup visited → NoDup (subdomainName <$> changes previous current visited).
Proof.
  induction 1 as [|n rest Hn _ IH]; simpl; [constructor|].
  unfold changes in *; simpl. unfold change_of at 1.
  case_decide; simpl; [|done].
  constructor; [|done].
  intros Hin. apply list_elem_of_fmap in Hin as (e & -> & He).
  apply elem_of_changes in He. by destruct He.
Qed.

Lemma changes_nil (previous current : Snapshot) (visited : list string) (n : string) :
  changes previous current visited = [] → n ∈ visited →
  sorted (get_records previous n) = sorted (get_records current n).
Proof.
  intros Hnil Hn.
  destruct (decide (sorted (get_records previous n) = sorted (get_records current n)))
    as [|Hne]; [done|].
  assert ({| subdomainName := n;
             oldRecords := sorted (get_records previous n);
             newRecords := sorted (get_records current n) |}
          ∈ changes previous current visited) as Hin
    by (by apply elem_of_changes).
  rewrite Hnil in Hin. by apply not_elem_of_nil in Hin.
Qed.

Lemma iteration_elem_of (order : SetOrder) (s : gset string) (n : string) :
  n ∈ iteration order s ↔ n ∈ s.
Proof. by rewrite (iteration_perm order s), elem_of_elements. Qed.

Lemma iteration_NoDup (order : SetOrder) (s : gset string) :
  NoDup (iteration order s).
Proof. rewrite (iteration_perm order s). apply NoDup_elements. Qed.

Lemma get_records_not_in_dom (s : Snapshot) (n : string) :
  n ∉ dom s → get_records s n = [].
Proof. intros H%not_elem_of_dom. unfold get_records. by rewrite H. Qed.

Lemma wf_in_dom_iff names_to_monitor (s : Snapshot) (n : string) :
  snapshot_wf names_to_monitor s → n ∈ dom s ↔ get_records s n ≠ [].
Proof.
  intros Hwf. rewrite elem_of_dom. unfold get_records. split.
  - intros [l Hl]. rewrite Hl. simpl. by destruct (Hwf n l Hl).
  - destruct (s !! n); [by eexists | done].
Qed.

(** What a call of [detect] does, by the stored state it finds. *)
Lemma detect_spec config order tg (current : Snapshot) (w : World) :
  let previous := previous_records_state w in
  let events :=
    if decide (previous = ∅) then []
    else changes previous current (iteration order (dom previous ∪ dom current)) in
  ∃ w' lines,
    detect config order tg current w = (Ok events, w') ∧
    previous_records_state w' =
      (if decide (previous = ∅) then current
       else if decide (current ≠ previous) then current else previous) ∧
    telegram_posts w' = telegram_posts w ++ (notification config <$> events) ∧
    stdout w' = stdout w ++ lines ∧ lines ≠ [] ∧ Forall detect_line lines.
Proof.
  simpl. unfold detect.
  rewrite (bind_ok _ _ w w (previous_records_state w)) by done.
  destruct (decide (previous_records_state w = ∅)) as [Hempty|Hfull].
  - eexists _, [LogFirstRun; LogInitDone].
    unfold bind, print, assign_previous_records_state, ret; simpl.
    rewrite app_nil_r, <- app_assoc. by repeat split; repeat constructor.
  - destruct (decide (current ≠ previous_records_state w)) as [Hne|Heq].
    + set (w0 := {| previous_records_state := previous_records_state w;
                    stdout := stdout w ++ [LogChangeDetected];
                    telegram_posts := telegram_posts w |}).
      rewrite (bind_ok _ _ w w0 ()) by done.
      destruct (for_each_compare_spec config tg current
                  (iteration order (dom (previous_records_state w) ∪ dom current)) w0)
        as (w1 & lines & Hrun & Hp & Ht & Hs & Hl).
      rewrite (bind_ok _ _ _ _ _ Hrun).
      eexists _, (LogChangeDetected :: lines).
      unfold bind, assign_previous_records_state, ret; simpl.
      split; [reflexivity|]. split; [done|]. split; [done|].
      split; [by rewrite Hs; simpl; rewrite <- app_assoc|].
      split; [done | by constructor].
    + apply dec_stable in Heq. rewrite Heq, changes_same.
      eexists _, [LogNoChange].
      unfold bind, print, ret; simpl. rewrite app_nil_r.
      rewrite <- Heq. by repeat split; repeat constructor.
Qed.

(** X10: when the stored state is empty, [detect] takes the branch of lines
    142-146: it reports and posts nothing and stores the current snapshot.
    The next call finds a baseline exactly when that snapshot has a key. *)
Lemma detect_first_run config order tg (current : Snapshot) (w : World) :
  previous_records_state w = ∅ →
  ∃ w',
    detect config order tg current w = (Ok [], w') ∧
    previous_records_state w' = current ∧
    telegram_posts w' = telegram_posts w ∧
    stdout w' = stdout w ++ [LogFirstRun; LogInitDone] ∧
    (initialized w' ↔ current ≠ ∅).
Proof.
  intros Hempty. unfold detect.
  rewrite (bind_ok _ _ w w (previous_records_state w)) by done.
  rewrite decide_True by done.
  eexists. unfold bind, print, assign_previous_records_state, ret; simpl.
  split; [reflexivity|]. unfold initialized; simpl.
  by rewrite <- app_assoc.
Qed.

(** On a stored state that is not empty, [detect] reports each name at most
    once; it reports a change exactly for the names of the stored state or
    of the current snapshot whose sorted lists differ, with these two sorted
    lists (the empty list for a side that lacks the name); and it posts one
    notification per reported change. *)
Lemma detect_reports_changed_names config order tg (current : Snapshot)
    (w : World) :
  initialized w →
  ∃ events w',
    detect config order tg current w = (Ok events, w') ∧
    NoDup (subdomainName <$> events) ∧
    (∀ e, e ∈ events ↔
       subdomainName e ∈ dom (previous_records_state w) ∪ dom current ∧
       oldRecords e = sorted (get_records (previous_records_state w) (subdomainName e)) ∧
       newRecords e = sorted (get_records current (subdomainName e)) ∧
       oldRecords e ≠ newRecords e) ∧
    telegram_posts w' = telegram_posts w ++ (notification config <$> events).
Proof.
  intros Hinit.
  destruct (detect_spec config order tg current w) as (w' & lines & Hrun & _ & Ht & _).
  rewrite decide_False in Hrun, Ht by exact Hinit.
  eexists _, w'. split; [exact Hrun|].
  split; [apply changes_names_NoDup, iteration_NoDup|].
  split; [|exact Ht].
  intros e. by rewrite elem_of_changes, iteration_elem_of.
Qed.

(** C4: a current snapshot that differs from the baseline only in the order
    of the records of one name has, for this name, the same sorted list as
    the baseline, and [detect] reports no change for this name. *)
Theorem detect_ignores_record_order config order tg (w : World)
    (n : string) (l l' : list RecordInfo) :
  previous_records_state w !! n = Some l →
  l' ≡ₚ l →
  sorted l' = sorted l ∧
  ∃ events w',
    detect config order tg (<[n := l']> (previous_records_state w)) w
      = (Ok events, w') ∧
    ∀ e, e ∈ events → subdomainName e ≠ n.
Proof.
  intros Hl Hperm.
  assert (sorted l' = sorted l) as Hsorted by (by apply sorted_eq_iff_perm).
  split; [done|].
  destruct (detect_spec config order tg (<[n := l']> (previous_records_state w)) w)
    as (w' & lines & Hrun & _).
  eexists _, w'. split; [exact Hrun|].
  intros e He Hname.
  case_decide; [by apply not_elem_of_nil in He|].
  apply elem_of_changes in He as (_ & Hold & Hnew & Hdiff).
  apply Hdiff. rewrite Hold, Hnew, Hname. unfold get_records.
  by rewrite lookup_insert_eq, Hl.
Qed.

Lemma detect_ignores_record_order_witness :
  sorted [A2; A1] = sorted [A1; A2] ∧
  ∃ events w',
    detect sample_config elements_order always_sent
      (<["www" := [A2; A1]]>
         (previous_records_state (world_with {[ "www" := [A1; A2] ]})))
      (world_with {[ "www" := [A1; A2] ]}) = (Ok events, w') ∧
    ∀ e, e ∈ events → subdomainName e ≠ "www".
Proof.
  apply (detect_ignores_record_order sample_config elements_order always_sent
           (world_with {[ "www" := [A1; A2] ]}) "www" [A1; A2] [A2; A1]).
  - vm_compute. reflexivity.
  - apply (bool_decide_unpack _). vm_compute. exact I.
Defined.

(** C2, as the code has it: when [detect] finds a baseline and reports no
    change, the state it leaves is the current snapshot, which has the keys
    of the baseline and, under each key, the records of the baseline up to
    their order. *)
Theorem detect_without_change_keeps_records config order tg
    (current : Snapshot) (w w' : World) :
  initialized w →
  snapshot_wf (list_to_set (names config)) (previous_records_state w) →
  snapshot_wf (list_to_set (names config)) current →
  detect config order tg current w = (Ok [], w') →
  previous_records_state w' = current ∧
  dom (previous_records_state w') = dom (previous_records_state w) ∧
  ∀ n, get_records (previous_records_state w') n
         ≡ₚ get_records (previous_records_state w) n.
Proof.
  intros Hinit Hwf Hwfc Hrun.
  destruct (detect_spec config order tg current w) as (w1 & lines & Hrun1 & Hp & _).
  rewrite Hrun in Hrun1.
  rewrite decide_False in Hrun1 by exact Hinit.
  rewrite decide_False in Hp by exact Hinit.
  injection Hrun1 as Hnil <-.
  assert (previous_records_state w' = current) as Hcur.
  { rewrite Hp. by case_decide. }
  rewrite Hcur.
  assert (∀ n, get_records current n ≡ₚ get_records (previous_records_state w) n)
    as Hperm.
  { intros n.
    destruct (decide (n ∈ dom (previous_records_state w) ∪ dom current)) as [Hn|Hn].
    - apply sorted_eq_iff_perm. symmetry.
      eapply changes_nil; [by symmetry|]. by apply iteration_elem_of.
    - apply not_elem_of_union in Hn as [Hn1 Hn2].
      by rewrite !get_records_not_in_dom. }
  split; [done|]. split; [|done].
  apply set_eq. intros n.
  rewrite (wf_in_dom_iff _ _ _ Hwf), (wf_in_dom_iff _ _ _ Hwfc).
  specialize (Hperm n). split; intros Hne Hnil'.
  - rewrite Hnil' in Hperm. symmetry in Hperm. by apply Permutation_nil in Hperm.
  - rewrite Hnil' in Hperm. by apply Permutation_nil in Hperm.
Qed.

Lemma detect_without_change_keeps_records_witness :
  previous_records_state
    (detect sample_config elements_order always_sent {[ "www" := [A2; A1] ]}
       (world_with {[ "www" := [A1; A2] ]})).2
    = {[ "www" := [A2; A1] ]} ∧
  dom (previous_records_state
         (detect sample_config elements_order always_sent {[ "www" := [A2; A1] ]}
            (world_with {[ "www" := [A1; A2] ]})).2)
    = dom (previous_records_state (world_with {[ "www" := [A1; A2] ]})) ∧
  ∀ n, get_records
         (previous_records_state
            (detect sample_config elements_order always_sent {[ "www" := [A2; A1] ]}
               (world_with {[ "www" := [A1; A2] ]})).2) n
       ≡ₚ get_records (previous_records_state (world_with {[ "www" := [A1; A2] ]})) n.
Proof.
  apply (detect_without_change_keeps_records sample_config elements_order
           always_sent {[ "www" := [A2; A1] ]} (world_with {[ "www" := [A1; A2] ]})).
  - apply (bool_decide_unpack _). vm_compute. exact I.
  - apply (bool_decide_unpack _). vm_compute. exact I.
  - apply (bool_decide_unpack _). vm_compute. exact I.
  - vm_compute. reflexivity.
Defined.

(** C8: whatever the notifier answers to each post, [detect] reports the
    same changes, stores the same state and posts the notification of every
    change it reports. *)
Theorem notifier_failure_is_ignored config order (tg tg' : TelegramOracle)
    (current : Snapshot) (w : World) :
  ∃ events w1 w2,
    detect config order tg current w = (Ok events, w1) ∧
    detect config order tg' current w = (Ok events, w2) ∧
    previous_records_state w1 = previous_records_state w2 ∧
    telegram_posts w1 = telegram_posts w ++ (notification config <$> events) ∧
    telegram_posts w2 = telegram_posts w1.
Proof.
  destruct (detect_spec config order tg current w) as (w1 & l1 & H1 & Hp1 & Ht1 & _).
  destruct (detect_spec config order tg' current w) as (w2 & l2 & H2 & Hp2 & Ht2 & _).
  eexists _, w1, w2. split; [exact H1|]. split; [exact H2|].
  split; [by rewrite Hp1, Hp2|]. split; [exact Ht1 | by rewrite Ht1, Ht2].
Qed.

(** ** One check cycle *)

Lemma printed_nil (w : World) : printed w [] = w.
Proof. destruct w. unfold printed; simpl. by rewrite app_nil_r. Qed.

Lemma printed_printed (w : World) (l1 l2 : list LogLine) :
  printed (printed w l1) l2 = printed w (l1 ++ l2).
Proof. unfold printed; simpl. by rewrite <- app_assoc. Qed.

(** [get_dnspod_records] only prints, and what it returns does not depend on
    the world; when it returns [None] it has printed one line. *)
Lemma get_dnspod_records_run (answer : DnspodAnswer) :
  ∃ r lines,
    (∀ w, get_dnspod_records answer w = (Ok r, printed w lines)) ∧
    Forall (λ l, ¬ detect_line l) lines ∧
    (r = None → ∃ line, lines = [line]).
Proof.
  destruct answer as [e| |status_code status_message records]; simpl.
  - exists None, [LogDnspodNetworkError e].
    split; [done|]. split; [apply Forall_singleton; simpl; tauto | by eexists].
  - exists None, [LogDnspodBadJson].
    split; [done|]. split; [apply Forall_singleton; simpl; tauto | by eexists].
  - destruct (decide (status_code = Some "1")).
    + exists (Some (default [] records)), [].
      split; [intros w; unfold ret; by rewrite printed_nil|].
      split; [constructor | done].
    + exists None, [LogDnspodApiError (default "未知API错误" status_message)].
      split; [done|]. split; [apply Forall_singleton; simpl; tauto | by eexists].
Qed.

(** The three ways through a cycle. *)
Lemma check_for_changes_unfold config order tg answer r lines (w : World) :
  (∀ w0, get_dnspod_records answer w0 = (Ok r, printed w0 lines)) →
  check_for_changes config order tg answer w =
    let started := printed w (LogCheckStart (domain config) :: lines) in
    match r with
    | None => (Ok [], printed started [LogFetchFailed])
    | Some all_records =>
        match build_state (list_to_set (names config)) all_records with
        | Ok current_records_state =>
            detect config order tg current_records_state started
        | Raise e => (Raise e, started)
        end
    end.
Proof.
  intros Hrun. unfold check_for_changes.
  rewrite (bind_ok _ _ w (printed w [LogCheckStart (domain config)]) ()) by done.
  rewrite (bind_ok _ _ _ _ _ (Hrun _)), printed_printed. simpl.
  destruct r as [all_records|]; [|done].
  unfold bind at 1, lift.
  by destruct (build_state (list_to_set (names config)) all_records).
Qed.

(** The stored state after a cycle is the one before it or a snapshot the
    builder returned. *)
Lemma check_for_changes_baseline config order tg answer (w : World) :
  ∃ r w',
    check_for_changes config order tg answer w = (r, w') ∧
    (previous_records_state w' = previous_records_state w ∨
     ∃ raw_records,
       build_state (list_to_set (names config)) raw_records
         = Ok (previous_records_state w')).
Proof.
  destruct (get_dnspod_records_run answer) as (r & lines & Hrun & _ & _).
  rewrite (check_for_changes_unfold _ _ _ _ _ _ _ Hrun). simpl.
  destruct r as [all_records|]; [|eexists _, _; split; [done | by left]].
  destruct (build_state (list_to_set (names config)) all_records)
    as [current|e] eqn:Hbuild; [|eexists _, _; split; [done | by left]].
  match goal with |- context [detect _ _ _ _ ?w0] =>
    destruct (detect_spec config order tg current w0)
      as (w1 & ls & -> & Hp & _) end.
  eexists _, _; split; [done|]. simpl in Hp. rewrite Hp.
  destruct (decide (previous_records_state w = ∅)); [right; by eexists|].
  destruct (decide (current ≠ previous_records_state w)); [right; by eexists | by left].
Qed.

(** C7: when the record listing fails, the cycle prints the start line, the
    line of the failure and the line that the check is skipped, none of them
    a line of the comparison; it notifies no change, posts nothing and leaves
    the stored state as it was. *)
Theorem fetch_failure_skips_cycle config order tg answer (w : World) :
  (get_dnspod_records answer w).1 = Ok None →
  ∃ w' line,
    check_for_changes config order tg answer w = (Ok [], w') ∧
    previous_records_state w' = previous_records_state w ∧
    telegram_posts w' = telegram_posts w ∧
    stdout w' = stdout w ++ [LogCheckStart (domain config); line; LogFetchFailed] ∧
    ¬ detect_line line.
Proof.
  intros Hfail.
  destruct (get_dnspod_records_run answer) as (r & lines & Hrun & Hlines & Hone).
  rewrite Hrun in Hfail. simpl in Hfail. injection Hfail as ->.
  destruct (Hone eq_refl) as [line ->].
  rewrite (check_for_changes_unfold _ _ _ _ _ _ _ Hrun). simpl.
  eexists _, line. split; [reflexivity|]. split; [done|]. split; [done|].
  split; [by rewrite printed_printed|].
  exact (proj1 (Forall_singleton _ _) Hlines).
Qed.

Lemma fetch_failure_skips_cycle_witness :
  let w := {| previous_records_state := {[ "www" := [A1] ]};
              stdout := []; telegram_posts := [] |} in
  ∃ w' line,
    check_for_changes sample_config elements_order always_sent
      (DnspodRequestException "timeout") w = (Ok [], w') ∧
    previous_records_state w' = previous_records_state w ∧
    telegram_posts w' = telegram_posts w ∧
    stdout w' = stdout w ++ [LogCheckStart (domain sample_config); line; LogFetchFailed] ∧
    ¬ detect_line line.
Proof.
  intros w.
  apply (fetch_failure_skips_cycle sample_config elements_order always_sent
           (DnspodRequestException "timeout") w).
  reflexivity.
Defined.

(** C2, as the claim has it, fails: after a first cycle that stores
    [www: A 1.1.1.1, A 2.2.2.2], a cycle that sees the two records in the
    other order reports no change and yet stores another state. *)
Lemma baseline_replaced_without_change :
  ∃ w1 w2,
    check_for_changes sample_config elements_order always_sent
      (records_ok [raw "www" "A" "1.1.1.1"; raw "www" "A" "2.2.2.2"])
      initial_world = (Ok [], w1) ∧
    initialized w1 ∧
    check_for_changes sample_config elements_order always_sent
      (records_ok [raw "www" "A" "2.2.2.2"; raw "www" "A" "1.1.1.1"])
      w1 = (Ok [], w2) ∧
    previous_records_state w1 = {[ "www" := [A1; A2] ]} ∧
    previous_records_state w2 = {[ "www" := [A2; A1] ]} ∧
    previous_records_state w2 ≠ previous_records_state w1.
Proof.
  eexists _, _.
  split; [vm_compute; reflexivity|].
  split; [apply (bool_decide_unpack _); vm_compute; exact I|].
  split; [vm_compute; reflexivity|].
  split; [vm_compute; reflexivity|].
  split; [vm_compute; reflexivity|].
  apply (bool_decide_unpack _). vm_compute. exact I.
Qed.

(** ** The stored state over a run *)

Lemma check_for_changes_baseline_ok config order tg answer (w : World) :
  baseline_ok config (previous_records_state w) →
  baseline_ok config
    (previous_records_state (check_for_changes config order tg answer w).2).
Proof.
  intros Hok.
  destruct (check_for_changes_baseline config order tg answer w)
    as (r & w' & Heq & Hcase).
  rewrite Heq; simpl. destruct Hcase as [->|[raw_records Hbuild]]; [done|].
  split; [by eapply build_state_wf | right; by eexists].
Qed.

Lemma main_loop_baseline_ok config order tg (answers : list DnspodAnswer) :
  ∀ w : World,
    baseline_ok config (previous_records_state w) →
    baseline_ok config
      (previous_records_state (main_loop config order tg answers w).2).
Proof.
  induction answers as [|answer rest IH]; intros w Hok; simpl; [done|].
  pose proof (check_for_changes_baseline_ok config order tg answer w Hok) as Hstep.
  unfold bind at 1.
  destruct (check_for_changes config order tg answer w) as [[events|e] w1];
    simpl in *; [|done].
  specialize (IH w1 Hstep).
  unfold bind at 1.
  by destruct (main_loop config order tg rest w1) as [[later|e] w2].
Qed.

(** C10: after any number of cycles from the start of the script, every key
    of the stored state is a monitored name and holds at least one record,
    and the stored state is the empty dict of the start or a snapshot the
    builder returned. *)
Theorem baseline_always_well_formed config order tg (answers : list DnspodAnswer) :
  let w := (main_loop config order tg answers initial_world).2 in
  snapshot_wf (list_to_set (names config)) (previous_records_state w) ∧
  (previous_records_state w = ∅ ∨
   ∃ raw_records,
     build_state (list_to_set (names config)) raw_records
       = Ok (previous_records_state w)).
Proof.
  apply (main_loop_baseline_ok config order tg answers initial_world).
  split; [|by left]. simpl. apply map_Forall_empty.
Qed.

(** C1, at a run the code can make: the first cycle stores a baseline, the
    second sees no monitored record, reports the change and stores the empty
    snapshot, and the third, whose snapshot differs from that empty baseline,
    takes the first-run branch again: it prints the first-run lines, reports
    and posts nothing. *)
Theorem empty_baseline_taken_for_first_run :
  ∃ w1 w2 w3,
    check_for_changes sample_config elements_order always_sent
      (records_ok [raw "www" "A" "1.1.1.1"]) initial_world = (Ok [], w1) ∧
    previous_records_state w1 = {[ "www" := [A1] ]} ∧
    check_for_changes sample_config elements_order always_sent
      (records_ok []) w1
      = (Ok [ {| subdomainName := "www"; oldRecords := [A1]; newRecords := [] |} ],
         w2) ∧
    previous_records_state w2 = ∅ ∧
    check_for_changes sample_config elements_order always_sent
      (records_ok [raw "www" "A" "2.2.2.2"]) w2 = (Ok [], w3) ∧
    stdout w3 = stdout w2 ++
      [LogCheckStart "example.com"; LogFirstRun; LogInitDone] ∧
    telegram_posts w3 = telegram_posts w2 ∧
    previous_records_state w3 = {[ "www" := [A2] ]}.
Proof.
  eexists _, _, _.
  split; [vm_compute; reflexivity|].
  split; [vm_compute; reflexivity|].
  split; [vm_compute; reflexivity|].
  split; [vm_compute; reflexivity|].
  split; [vm_compute; reflexivity|].
  split; [vm_compute; reflexivity|].
  split; vm_compute; reflexivity.
Qed.

(** C3, at a run the code can make: the first record list is not empty but
    holds no monitored name; the first cycle stores the empty snapshot, and
    the second cycle, which sees a monitored record appear, takes the
    first-run branch again and reports nothing. *)
Theorem first_cycle_may_store_empty_baseline :
  ∃ w1 w2,
    check_for_changes sample_config elements_order always_sent
      (records_ok [raw "mail" "MX" "mx.example.com."]) initial_world
      = (Ok [], w1) ∧
    previous_records_state w1 = ∅ ∧
    check_for_changes sample_config elements_order always_sent
      (records_ok [raw "www" "A" "1.1.1.1"]) w1 = (Ok [], w2) ∧
    stdout w2 = stdout w1 ++
      [LogCheckStart "example.com"; LogFirstRun; LogInitDone] ∧
    telegram_posts w2 = [] ∧
    previous_records_state w2 = {[ "www" := [A1] ]}.
Proof.
  eexists _, _.
  split; [vm_compute; reflexivity|].
  split; [vm_compute; reflexivity|].
  split; [vm_compute; reflexivity|].
  split; [vm_compute; reflexivity|].
  split; vm_compute; reflexivity.
Qed.

(** C5, at a run the code can make: the first cycle stores a baseline and
    the second stores the empty snapshot.  The name www is then in the union
    of the two key sets and its sorted lists differ, the empty list against
    one record, and yet [detect] reports no change and posts nothing: it
    takes the first-run branch. *)
Theorem changed_name_unreported_on_empty_baseline :
  ∃ w1 w2 w3,
    check_for_changes sample_config elements_order always_sent
      (records_ok [raw "www" "A" "1.1.1.1"]) initial_world = (Ok [], w1) ∧
    check_for_changes sample_config elements_order always_sent
      (records_ok []) w1
      = (Ok [ {| subdomainName := "www"; oldRecords := [A1]; newRecords := [] |} ],
         w2) ∧
    previous_records_state w2 = ∅ ∧
    "www" ∈ dom (previous_records_state w2) ∪ dom ({[ "www" := [A2] ]} : Snapshot) ∧
    sorted (get_records (previous_records_state w2) "www") = [] ∧
    sorted (get_records {[ "www" := [A2] ]} "www") = [A2] ∧
    detect sample_config elements_order always_sent {[ "www" := [A2] ]} w2
      = (Ok [], w3) ∧
    telegram_posts w3 = telegram_posts w2 ∧
    stdout w3 = stdout w2 ++ [LogFirstRun; LogInitDone].
Proof.
  eexists _, _, _.
  split; [vm_compute; reflexivity|].
  split; [vm_compute; reflexivity|].
  split; [vm_compute; reflexivity|].
  split; [apply (bool_decide_unpack _); vm_compute; exact I|].
  split; [vm_compute; reflexivity|].
  split; [vm_compute; reflexivity|].
  split; [vm_compute; reflexivity|].
  split; vm_compute; reflexivity.
Qed.

(** ** Loading the configuration *)

Lemma check_required_None (keys : list string) (config : Json) :
  check_required keys config = None ↔
  Forall (λ key, json_contains key config = inr true) keys.
Proof.
  induction keys as [|key rest IH]; simpl.
  - split; [constructor | done].
  - rewrite Forall_cons.
    destruct (json_contains key config) as [e|[|]]; simpl.
    + split; [done | by intros [? _]].
    + rewrite IH. by intuition.
    + split; [done | by intros [? _]].
Qed.

Lemma check_required_Some (keys : list string) (config : Json) lines ended :
  check_required keys config = Some (lines, ended) →
  ∃ line, lines = [line] ∧ ended = SysExit 1.
Proof.
  induction keys as [|key rest IH]; simpl; [done|].
  destruct (json_contains key config) as [e|[|]]; [|done|];
    intros [= <- <-]; by eexists.
Qed.

(** X1: [load_config] either returns a configuration and prints nothing, or
    prints exactly one line and exits with status 1. *)
Theorem load_config_returns_or_exits_1 (file : ConfigFile) :
  (∃ config, load_config file = ([], Returned config)) ∨
  (∃ line, load_config file = ([line], SysExit 1)).
Proof.
  destruct file as [|e| |config]; unfold load_config; cbv beta iota;
    try (right; by eexists).
  destruct (check_required required_keys config) as [[lines ended]|] eqn:Hreq.
  - destruct (check_required_Some _ _ _ _ Hreq) as (line & -> & ->).
    right. by eexists.
  - destruct (json_contains "check_interval_seconds" config) as [e|[|]];
      [right; by eexists | left; by eexists |].
    destruct (json_setitem "check_interval_seconds" config);
      [right; by eexists | left; by eexists].
Qed.

Lemma load_config_returned_contains (file : ConfigFile) lines (config : Json) :
  load_config file = (lines, Returned config) →
  Forall (λ key, json_contains key config = inr true)
    (required_keys ++ ["check_interval_seconds"]).
Proof.
  destruct file as [|e| |v]; unfold load_config; cbv beta iota; try done.
  destruct (check_required required_keys v) as [[ls ended]|] eqn:Hreq.
  { destruct (check_required_Some _ _ _ _ Hreq) as (line & -> & ->). done. }
  apply check_required_None in Hreq.
  destruct (json_contains "check_interval_seconds" v) as [e|[|]] eqn:Hcis; [done| |].
  - intros [= <- <-]. apply Forall_app. split; [done | by apply Forall_singleton].
  - destruct v as [| | | | |members]; cbn [json_setitem json_contains] in *;
      try done.
    intros [= <- <-]. apply Forall_app. split.
    + eapply Forall_impl; [exact Hreq|]. simpl. intros key [= Hk]. f_equal.
      apply bool_decide_eq_true in Hk. apply bool_decide_eq_true.
      rewrite dom_insert_L. set_solver.
    + apply Forall_singleton. simpl. f_equal. apply bool_decide_eq_true.
      rewrite dom_insert_L. set_solver.
Qed.

(** X2: a configuration that [load_config] returns contains the five
    required keys and [check_interval_seconds]; it is the value of the file,
    or, when the file holds an object without [check_interval_seconds], that
    object with [check_interval_seconds] set to 10. *)
Theorem load_config_returned_has_keys (file : ConfigFile) lines (config : Json) :
  load_config file = (lines, Returned config) →
  Forall (λ key, json_contains key config = inr true)
    (required_keys ++ ["check_interval_seconds"]) ∧
  ∃ v, file = FileJson v ∧
    (config = v ∨
     ∃ members, v = JObject members ∧
       members !! "check_interval_seconds" = None ∧
       config = JObject (<["check_interval_seconds" := JNumber "10"]> members)).
Proof.
  intros Hload. split; [by eapply load_config_returned_contains|].
  revert Hload.
  destruct file as [|e| |v]; unfold load_config; cbv beta iota; try done.
  intros Hload. exists v. split; [done|]. revert Hload.
  destruct (check_required required_keys v) as [[ls ended]|] eqn:Hreq.
  { destruct (check_required_Some _ _ _ _ Hreq) as (line & -> & ->). done. }
  destruct (json_contains "check_interval_seconds" v) as [e|[|]] eqn:Hcis; [done| |].
  - intros [= <- <-]. by left.
  - destruct v as [| | | | |members]; cbn [json_setitem json_contains] in *;
      try done.
    intros [= <- <-]. injection Hcis as Hcis.
    apply bool_decide_eq_false, not_elem_of_dom in Hcis.
    right. by eexists.
Qed.

Lemma load_config_returned_has_keys_witness :
  Forall (λ key, json_contains key
            (JObject (<["check_interval_seconds" := JNumber "10"]>
               (list_to_map ((λ key, (key, JString "x")) <$> required_keys))))
            = inr true)
    (required_keys ++ ["check_interval_seconds"]) ∧
  ∃ v, FileJson (JObject (list_to_map ((λ key, (key, JString "x")) <$> required_keys)))
         = FileJson v ∧
    (JObject (<["check_interval_seconds" := JNumber "10"]>
        (list_to_map ((λ key, (key, JString "x")) <$> required_keys))) = v ∨
     ∃ members, v = JObject members ∧
       members !! "check_interval_seconds" = None ∧
       JObject (<["check_interval_seconds" := JNumber "10"]>
          (list_to_map ((λ key, (key, JString "x")) <$> required_keys)))
         = JObject (<["check_interval_seconds" := JNumber "10"]> members)).
Proof.
  apply (load_config_returned_has_keys
           (FileJson (JObject (list_to_map ((λ key, (key, JString "x")) <$> required_keys))))
           []).
  vm_compute. reflexivity.
Defined.

Lemma check_required_object (keys : list string) (members : gmap string Json) :
  check_required keys (JObject members) =
    match List.find (λ key, negb (bool_decide (key ∈ dom members))) keys with
    | Some key => Some ([LogConfigKeyMissing key], SysExit 1)
    | None => None
    end.
Proof.
  induction keys as [|key rest IH]; simpl; [done|].
  by destruct (bool_decide (key ∈ dom members)).
Qed.

(** X3: on a file that holds a JSON object, [load_config] exits with the
    line of the first required key, in the order of [required_keys], that the
    object lacks; when it lacks none it returns the object, with
    [check_interval_seconds] set to 10 when the object has no such key and
    with the value of the file otherwise. *)
Theorem load_config_object (members : gmap string Json) :
  load_config (FileJson (JObject members)) =
    match List.find (λ key, negb (bool_decide (key ∈ dom members))) required_keys with
    | Some key => ([LogConfigKeyMissing key], SysExit 1)
    | None =>
        ([], Returned (JObject
               match members !! "check_interval_seconds" with
               | Some _ => members
               | None => <["check_interval_seconds" := JNumber "10"]> members
               end))
    end.
Proof.
  unfold load_config. rewrite check_required_object.
  destruct (List.find _ required_keys); [done|].
  cbn [json_contains json_setitem].
  destruct (members !! "check_interval_seconds") as [v|] eqn:Hcis.
  - rewrite bool_decide_eq_true_2; [done|]. apply elem_of_dom. by eexists.
  - rewrite bool_decide_eq_false_2; [done|]. by apply not_elem_of_dom.
Qed.

(** X4: a configuration that [load_config] returned is accepted as it is
    when it is loaded again. *)
Theorem load_config_reload (file : ConfigFile) lines (config : Json) :
  load_config file = (lines, Returned config) →
  load_config (FileJson config) = ([], Returned config).
Proof.
  intros Hload.
  pose proof (load_config_returned_contains _ _ _ Hload) as Hkeys.
  apply Forall_app in Hkeys as [Hreq Hcis].
  apply check_required_None in Hreq.
  rewrite Forall_singleton in Hcis.
  unfold load_config. by rewrite Hreq, Hcis.
Qed.

Lemma load_config_reload_witness :
  load_config
    (FileJson (JObject (<["check_interval_seconds" := JNumber "10"]>
       (list_to_map ((λ key, (key, JString "x")) <$> required_keys)))))
  = ([], Returned (JObject (<["check_interval_seconds" := JNumber "10"]>
       (list_to_map ((λ key, (key, JString "x")) <$> required_keys))))).
Proof.
  apply (load_config_reload
           (FileJson (JObject (list_to_map ((λ key, (key, JString "x")) <$> required_keys))))
           []).
  vm_compute. reflexivity.
Defined.

Lemma existsb_is_string (key : string) (items : list Json) :
  existsb (is_string key) items = true ↔ JString key ∈ items.
Proof.
  induction items as [|v items IH]; simpl.
  - split; [done | by intros ?%not_elem_of_nil].
  - rewrite elem_of_cons, <- IH, orb_true_iff.
    assert (is_string key v = true ↔ JString key = v) as ->; [|done].
    destruct v; simpl; try (split; done).
    rewrite bool_decide_eq_true. split; [by intros -> | by intros [= ->]].
Qed.

(** X5: [load_config] does not ask for an object: a file that holds a JSON
    array is returned as the configuration exactly when the five required
    keys and [check_interval_seconds] are among its elements, as strings. *)
Theorem load_config_array (items : list Json) :
  load_config (FileJson (JArray items)) = ([], Returned (JArray items)) ↔
  Forall (λ key, JString key ∈ items)
    (required_keys ++ ["check_interval_seconds"]).
Proof.
  assert (∀ keys,
    Forall (λ key, json_contains key (JArray items) = inr true) keys ↔
    Forall (λ key, JString key ∈ items) keys) as Hiff.
  { intros keys. apply Forall_iff. intros key. simpl.
    rewrite <- existsb_is_string. split; [by intros [= ->] | by intros ->]. }
  rewrite <- Hiff. split.
  - intros Hload. by apply (load_config_returned_contains _ _ _ Hload).
  - intros Hkeys. apply Forall_app in Hkeys as [Hreq Hcis].
    apply check_required_None in Hreq.
    rewrite Forall_singleton in Hcis.
    unfold load_config. by rewrite Hreq, Hcis.
Qed.

(** ** Rendering the records *)

(** X6: the text of a record list does not depend on the order in which the
    records are listed. *)
Theorem format_records_for_display_perm (l1 l2 : list RecordInfo) :
  l1 ≡ₚ l2 → format_records_for_display l1 = format_records_for_display l2.
Proof.
  intros Hperm. unfold format_records_for_display.
  destruct l1 as [|x1 l1], l2 as [|x2 l2]; [done| | |].
  - by apply Permutation_nil_cons in Hperm.
  - symmetry in Hperm. by apply Permutation_nil_cons in Hperm.
  - by rewrite (proj2 (sorted_eq_iff_perm _ _) Hperm).
Qed.

Lemma format_records_for_display_perm_witness :
  format_records_for_display [A2; A1] = format_records_for_display [A1; A2].
Proof.
  apply (format_records_for_display_perm [A2; A1] [A1; A2]).
  apply (bool_decide_unpack _). vm_compute. exact I.
Defined.

(** X7: the text is the placeholder of line 105 exactly for the empty list:
    the text of a list that holds a record starts with the two spaces of its
    first line. *)
Theorem format_records_for_display_placeholder (l : list RecordInfo) :
  format_records_for_display l = "无" ↔ l = [].
Proof.
  split; [|by intros ->].
  destruct l as [|x l]; [done|]. unfold format_records_for_display.
  destruct (sorted (x :: l)) as [|y rest] eqn:Hs.
  { assert (x :: l ≡ₚ []) as Hp by (by rewrite <- Hs, sorted_perm).
    symmetry in Hp. by apply Permutation_nil_cons in Hp. }
  simpl. by destruct (map _ rest).
Qed.

(** ** The two HTTP boundaries *)

(** X8: for an answer of [DnspodAnswer] (a request exception, a body that
    is not JSON, or a JSON object whose status is an object or missing and
    whose records are a list or missing), when [get_dnspod_records] returns
    it has only printed: the stored state and the posts are as before.  It
    returns a record list exactly when the status code is the string "1",
    and then it has printed nothing and returns the [records] of the answer,
    or the empty list when the answer has none; when it returns [None] it has
    printed exactly one line. *)
Theorem get_dnspod_records_outcome (answer : DnspodAnswer) (w w' : World)
    (r : option (list RawRecord)) :
  get_dnspod_records answer w = (Ok r, w') →
  ∃ lines,
    w' = printed w lines ∧
    (∀ all_records,
       r = Some all_records ↔
       ∃ status_message records,
         answer = DnspodJson (Some "1") status_message records ∧
         all_records = default [] records) ∧
    (is_Some r → lines = []) ∧
    (r = None → ∃ line, lines = [line]).
Proof.
  destruct answer as [e| |status_code status_message records]; simpl.
  - intros [= <- <-]. exists [LogDnspodNetworkError e]. split; [done|].
    split; [|split; [by intros [? ?] | by eexists]].
    intros all_records. split; [done | by intros (? & ? & ? & _)].
  - intros [= <- <-]. exists [LogDnspodBadJson]. split; [done|].
    split; [|split; [by intros [? ?] | by eexists]].
    intros all_records. split; [done | by intros (? & ? & ? & _)].
  - destruct (decide (status_code = Some "1")) as [->|Hcode].
    + intros [= <- <-]. exists [].
      split; [by rewrite printed_nil|].
      split; [|done].
      intros all_records. split.
      * intros [= <-]. by eexists _, _.
      * intros (? & ? & [= <- <-] & ->). done.
    + intros [= <- <-].
      exists [LogDnspodApiError (default "未知API错误" status_message)].
      split; [done|].
      split; [|split; [by intros [? ?] | by eexists]].
      intros all_records. split; [done|].
      intros (? & ? & [= -> _ _] & _). done.
Qed.

Lemma get_dnspod_records_outcome_witness :
  ∃ lines,
    (get_dnspod_records (DnspodJson (Some "1") None None)
       (world_with {[ "www" := [A1] ]})).2
      = printed (world_with {[ "www" := [A1] ]}) lines ∧
    (∀ all_records,
       Some [] = Some all_records ↔
       ∃ status_message records,
         DnspodJson (Some "1") None None
           = DnspodJson (Some "1") status_message records ∧
         all_records = default [] records) ∧
    (is_Some (Some ([] : list RawRecord)) → lines = []) ∧
    (Some ([] : list RawRecord) = None → ∃ line, lines = [line]).
Proof.
  apply (get_dnspod_records_outcome (DnspodJson (Some "1") None None)
           (world_with {[ "www" := [A1] ]})).
  reflexivity.
Defined.

(** X9: for an answer of [TelegramAnswer] (a request exception, or a
    response whose body is a JSON object), when [send_telegram_message]
    returns it has left the stored state alone, made one post, to the
    [sendMessage] address of the bot, with the chat id, the message and the
    Markdown mode, and printed one line.  The line says the message was sent
    exactly when the answer has status 200 and a true [ok]. *)
Theorem send_telegram_message_outcome (tg : TelegramOracle)
    (bot_token chat_id message : string) (w w' : World) :
  send_telegram_message tg bot_token chat_id message w = (Ok (), w') →
  previous_records_state w' = previous_records_state w ∧
  telegram_posts w' = telegram_posts w ++
    [ {| url := "https://api.telegram.org/bot" +:+ bot_token +:+ "/sendMessage";
         chat_id := chat_id; text := message; parse_mode := "Markdown" |} ] ∧
  ∃ line,
    stdout w' = stdout w ++ [line] ∧
    (line = LogTelegramSent ↔
     ∃ response_text,
       tg (length (telegram_posts w)) = TelegramResponse 200 true response_text).
Proof.
  unfold send_telegram_message, bind, posts_so_far, record_post, print; simpl.
  destruct (tg (length (telegram_posts w))) as [e|status_code ok response_text].
  - intros [= <-]. simpl. split; [done|]. split; [done|].
    eexists. split; [done|]. split; [done | by intros [? ?]].
  - destruct (bool_decide (status_code = 200%Z)) eqn:Hs, ok; simpl;
      intros [= <-]; simpl; (split; [done|]); (split; [done|]);
      (eexists; split; [done|]).
    + apply bool_decide_eq_true in Hs as ->. split; [by eexists | done].
    + split; [done | by intros [? ?]].
    + apply bool_decide_eq_false in Hs. split; [done|]. by intros [? [= ?]].
    + split; [done | by intros [? ?]].
Qed.

Lemma send_telegram_message_outcome_witness :
  previous_records_state
    (send_telegram_message always_down "bot-token" "42" "text" initial_world).2
    = previous_records_state initial_world ∧
  telegram_posts
    (send_telegram_message always_down "bot-token" "42" "text" initial_world).2
    = telegram_posts initial_world ++
      [ {| url := "https://api.telegram.org/bot" +:+ "bot-token" +:+ "/sendMessage";
           chat_id := "42"; text := "text"; parse_mode := "Markdown" |} ] ∧
  ∃ line,
    stdout
      (send_telegram_message always_down "bot-token" "42" "text" initial_world).2
      = stdout initial_world ++ [line] ∧
    (line = LogTelegramSent ↔
     ∃ response_text,
       always_down (length (telegram_posts initial_world))
         = TelegramResponse 200 true response_text).
Proof.
  apply (send_telegram_message_outcome always_down "bot-token" "42" "text"
           initial_world).
  reflexivity.
Defined.

(** ** More on the change detector *)

Lemma detect_first_run_witness :
  ∃ w',
    detect sample_config elements_order always_sent {[ "www" := [A1] ]}
      initial_world = (Ok [], w') ∧
    previous_records_state w' = {[ "www" := [A1] ]} ∧
    telegram_posts w' = telegram_posts initial_world ∧
    stdout w' = stdout initial_world ++ [LogFirstRun; LogInitDone] ∧
    (initialized w' ↔ ({[ "www" := [A1] ]} : Snapshot) ≠ ∅).
Proof.
  apply (detect_first_run sample_config elements_order always_sent
           {[ "www" := [A1] ]} initial_world).
  reflexivity.
Defined.

(** X11: when [detect] returns, whatever branch it took, the stored state
    is the current snapshot. *)
Theorem detect_stores_current config order tg (current : Snapshot)
    (w w' : World) (events : list ChangeEvent) :
  detect config order tg current w = (Ok events, w') →
  previous_records_state w' = current.
Proof.
  intros Hrun.
  destruct (detect_spec config order tg current w) as (w1 & lines & Hrun1 & Hp & _).
  rewrite Hrun in Hrun1. injection Hrun1 as _ <-.
  rewrite Hp. by repeat case_decide.
Qed.

Lemma detect_stores_current_witness :
  previous_records_state
    (detect sample_config elements_order always_down {[ "www" := [A2] ]}
       (world_with {[ "www" := [A1]; "api" := [A1] ]})).2
  = {[ "www" := [A2] ]}.
Proof.
  eapply (detect_stores_current sample_config elements_order always_down
            {[ "www" := [A2] ]} (world_with {[ "www" := [A1]; "api" := [A1] ]})).
  vm_compute. reflexivity.
Defined.

(** X12: a second [detect] on the snapshot of the first reports nothing,
    posts nothing and keeps the stored state. *)
Theorem detect_twice config order tg tg' (current : Snapshot) (w : World) :
  ∃ events w1 w2,
    detect config order tg current w = (Ok events, w1) ∧
    detect config order tg' current w1 = (Ok [], w2) ∧
    previous_records_state w2 = previous_records_state w1 ∧
    telegram_posts w2 = telegram_posts w1.
Proof.
  destruct (detect_spec config order tg current w)
    as (w1 & lines1 & Hrun1 & Hp1 & _).
  assert (previous_records_state w1 = current) as Hcur
    by (rewrite Hp1; by repeat case_decide).
  clear Hp1. rename Hcur into Hp1. revert Hrun1.
  generalize (if decide (previous_records_state w = ∅) then []
              else changes (previous_records_state w) current
                     (iteration order (dom (previous_records_state w) ∪ dom current))).
  intros events Hrun1.
  destruct (detect_spec config order tg' current w1)
    as (w2 & lines & Hrun2 & Hp2 & Ht2 & _).
  rewrite Hp1 in Hrun2, Hp2, Ht2. rewrite changes_same in Hrun2, Ht2.
  exists events, w1, w2. split; [done|].
  split; [by destruct (decide (current = ∅))|].
  split.
  - rewrite Hp2, Hp1. by repeat case_decide.
  - rewrite Ht2. destruct (decide (current = ∅)); simpl; by rewrite app_nil_r.
Qed.

Lemma changes_nil_iff (previous current : Snapshot) (visited : list string) :
  changes previous current visited = [] ↔
  ∀ n, n ∈ visited → get_records previous n ≡ₚ get_records current n.
Proof.
  split.
  - intros Hnil n Hn. apply sorted_eq_iff_perm. by eapply changes_nil.
  - intros Hall. destruct (changes previous current visited) as [|e rest] eqn:Hc;
      [done|].
    assert (e ∈ changes previous current visited) as He
      by (rewrite Hc; apply list_elem_of_here).
    apply elem_of_changes in He as (Hn & Hold & Hnew & Hdiff).
    destruct Hdiff. rewrite Hold, Hnew. by apply sorted_eq_iff_perm, Hall.
Qed.

(** X13: with a baseline in place, [detect] reports nothing exactly when
    every name has the same records in the baseline and in the current
    snapshot, each as many times, in whatever order. *)
Theorem detect_silent_iff_same_records config order tg (current : Snapshot)
    (w : World) :
  initialized w →
  ∃ events w',
    detect config order tg current w = (Ok events, w') ∧
    (events = [] ↔
     ∀ n, get_records (previous_records_state w) n ≡ₚ get_records current n).
Proof.
  intros Hinit.
  destruct (detect_spec config order tg current w) as (w' & lines & Hrun & _).
  rewrite decide_False in Hrun by exact Hinit.
  eexists _, w'. split; [exact Hrun|].
  rewrite changes_nil_iff. split.
  - intros Hall n.
    destruct (decide (n ∈ dom (previous_records_state w) ∪ dom current)) as [Hn|Hn].
    + by apply Hall, iteration_elem_of.
    + apply not_elem_of_union in Hn as [Hn1 Hn2].
      by rewrite !get_records_not_in_dom.
  - intros Hall n _. apply Hall.
Qed.

Lemma detect_silent_iff_same_records_witness :
  ∃ events w',
    detect sample_config elements_order always_sent {[ "www" := [A2; A1] ]}
      (world_with {[ "www" := [A1; A2] ]}) = (Ok events, w') ∧
    (events = [] ↔
     ∀ n, get_records (previous_records_state (world_with {[ "www" := [A1; A2] ]})) n
            ≡ₚ get_records {[ "www" := [A2; A1] ]} n).
Proof.
  apply (detect_silent_iff_same_records sample_config elements_order always_sent
           {[ "www" := [A2; A1] ]} (world_with {[ "www" := [A1; A2] ]})).
  apply (bool_decide_unpack _). vm_compute. exact I.
Defined.

(** ** More on the snapshot builder *)

Lemma build_step_missing_key names_to_monitor (cur : Snapshot) (r : RawRecord) :
  match missing_key names_to_monitor r with
  | Some key => build_step names_to_monitor cur r = Raise (KeyError key)
  | None => ∃ next, build_step names_to_monitor cur r = Ok next
  end.
Proof.
  rewrite build_step_cases. unfold missing_key.
  destruct (r !! "name") as [n|]; [|done].
  destruct (decide (n ∈ names_to_monitor)); [|by eexists].
  destruct (r !! "type") as [t|], (r !! "value") as [v|]; try done. by eexists.
Qed.

Lemma build_loop_first_failure names_to_monitor (all_records : list RawRecord)
    (key : string) :
  ∀ cur : Snapshot,
    build_loop names_to_monitor cur all_records = Raise (KeyError key) ↔
    ∃ before r after,
      all_records = before ++ r :: after ∧
      Forall (λ r, missing_key names_to_monitor r = None) before ∧
      missing_key names_to_monitor r = Some key.
Proof.
  induction all_records as [|r rest IH]; intros cur; simpl.
  - split; [done|]. intros (before & r & after & Heq & _). by destruct before.
  - pose proof (build_step_missing_key names_to_monitor cur r) as Hstep.
    destruct (missing_key names_to_monitor r) as [k|] eqn:Hk.
    + rewrite Hstep. simpl. split.
      * intros [= ->]. exists [], r, rest. by repeat split.
      * intros (before & r' & after & Heq & Hbefore & Hr').
        destruct before as [|r0 before]; simplify_eq/=; [congruence|].
        apply Forall_cons in Hbefore as [? _]. congruence.
    + destruct Hstep as [next ->]. simpl. rewrite IH. split.
      * intros (before & r' & after & -> & Hbefore & Hr').
        exists (r :: before), r', after. split; [done|].
        split; [by constructor | done].
      * intros (before & r' & after & Heq & Hbefore & Hr').
        destruct before as [|r0 before]; simplify_eq/=.
        apply Forall_cons in Hbefore as [_ Hbefore]. by eexists _, _, _.
Qed.

(** X14: the builder raises [KeyError] for the key [key] exactly when the
    first record on which a lookup fails has [key] as the first key it
    lacks among those the builder reads: [name], and for a monitored name
    [type], then [value]. *)
Theorem build_state_first_failure (names_to_monitor : gset string)
    (all_records : list RawRecord) (key : string) :
  build_state names_to_monitor all_records = Raise (KeyError key) ↔
  ∃ before r after,
    all_records = before ++ r :: after ∧
    Forall (λ r, missing_key names_to_monitor r = None) before ∧
    missing_key names_to_monitor r = Some key.
Proof.
  unfold build_state.
  split; intros H; by apply (build_loop_first_failure _ _ _ ∅).
Qed.

Lemma get_records_append_snapshots (s1 s2 : Snapshot) (n : string) :
  get_records (append_snapshots s1 s2) n = get_records s1 n ++ get_records s2 n.
Proof.
  unfold get_records, append_snapshots. rewrite lookup_union_with.
  destruct (s1 !! n), (s2 !! n); simpl; by rewrite ?app_nil_r.
Qed.

Lemma append_snapshots_empty_r (s : Snapshot) : append_snapshots s ∅ = s.
Proof.
  apply map_eq. intros n. unfold append_snapshots.
  rewrite lookup_union_with, lookup_empty. by destruct (s !! n).
Qed.

Lemma append_snapshots_assoc (s1 s2 s3 : Snapshot) :
  append_snapshots (append_snapshots s1 s2) s3 =
  append_snapshots s1 (append_snapshots s2 s3).
Proof.
  apply map_eq. intros n. unfold append_snapshots.
  rewrite !lookup_union_with.
  destruct (s1 !! n), (s2 !! n), (s3 !! n); simpl; by rewrite ?app_assoc.
Qed.

Lemma append_snapshots_singleton (s : Snapshot) (n : string) (i : RecordInfo) :
  append_snapshots s {[ n := [i] ]} = <[n := get_records s n ++ [i]]> s.
Proof.
  apply map_eq. intros m. unfold append_snapshots, get_records.
  rewrite lookup_union_with.
  destruct (decide (n = m)) as [<-|Hne].
  - rewrite lookup_singleton_eq, lookup_insert_eq. by destruct (s !! n).
  - rewrite lookup_singleton_ne, lookup_insert_ne by done. by destruct (s !! m).
Qed.

(** The step from [cur] is the step from the empty snapshot, put after
    [cur]. *)
Lemma build_step_from names_to_monitor (cur : Snapshot) (r : RawRecord) :
  build_step names_to_monitor cur r =
    (step <-? build_step names_to_monitor ∅ r ;;
     Ok (append_snapshots cur step))%result.
Proof.
  rewrite !build_step_cases.
  destruct (r !! "name") as [n|]; [|done].
  destruct (decide (n ∈ names_to_monitor)); simpl;
    [|by rewrite append_snapshots_empty_r].
  destruct (r !! "type") as [t|], (r !! "value") as [v|]; simpl; try done.
  f_equal. unfold get_records at 2. rewrite lookup_empty. simpl.
  by rewrite insert_empty, append_snapshots_singleton.
Qed.

Lemma build_loop_from names_to_monitor (all_records : list RawRecord) :
  ∀ cur : Snapshot,
    build_loop names_to_monitor cur all_records =
      (snap <-? build_loop names_to_monitor ∅ all_records ;;
       Ok (append_snapshots cur snap))%result.
Proof.
  induction all_records as [|r rest IH]; intros cur; simpl.
  - by rewrite append_snapshots_empty_r.
  - rewrite (build_step_from _ cur r).
    destruct (build_step names_to_monitor ∅ r) as [step|e]; simpl; [|done].
    rewrite (IH (append_snapshots cur step)), (IH step).
    destruct (build_loop names_to_monitor ∅ rest) as [snap|e]; simpl; [|done].
    by rewrite append_snapshots_assoc.
Qed.

Lemma build_loop_app names_to_monitor (l1 l2 : list RawRecord) :
  ∀ cur : Snapshot,
    build_loop names_to_monitor cur (l1 ++ l2) =
      (mid <-? build_loop names_to_monitor cur l1 ;;
       build_loop names_to_monitor mid l2)%result.
Proof.
  induction l1 as [|r l1 IH]; intros cur; simpl; [done|].
  destruct (build_step names_to_monitor cur r) as [next|e]; simpl; [apply IH | done].
Qed.

(** X15: the snapshot of two record lists one after the other is the
    snapshot of the first with, under each name, the records of the snapshot
    of the second added at the end; it raises what the first raises, or else
    what the second raises. *)
Theorem build_state_app (names_to_monitor : gset string)
    (l1 l2 : list RawRecord) :
  build_state names_to_monitor (l1 ++ l2) =
    (s1 <-? build_state names_to_monitor l1 ;;
     s2 <-? build_state names_to_monitor l2 ;;
     Ok (append_snapshots s1 s2))%result ∧
  ∀ s1 s2 n,
    get_records (append_snapshots s1 s2) n = get_records s1 n ++ get_records s2 n.
Proof.
  split; [|apply get_records_append_snapshots].
  unfold build_state. rewrite build_loop_app.
  destruct (build_loop names_to_monitor ∅ l1) as [s1|e]; simpl; [|done].
  apply build_loop_from.
Qed.

Lemma build_loop_records names_to_monitor (all_records : list RawRecord) :
  ∀ cur snap : Snapshot,
    build_loop names_to_monitor cur all_records = Ok snap →
    ∀ n, get_records snap n =
           get_records cur n ++
           (if decide (n ∈ names_to_monitor)
            then omap record_info_of (filter (named n) all_records) else []).
Proof.
  induction all_records as [|r rest IH]; intros cur snap; simpl.
  - intros [= <-] n.
    by destruct (decide (n ∈ names_to_monitor)); rewrite app_nil_r.
  - rewrite build_step_cases. intros Hloop n. rewrite filter_cons.
    destruct (r !! "name") as [m|] eqn:Hm; simpl in Hloop; [|done].
    destruct (decide (m ∈ names_to_monitor)) as [Hin|Hnin]; simpl in Hloop.
    + destruct (r !! "type") as [t|] eqn:Ht; [|done].
      destruct (r !! "value") as [v|] eqn:Hv; [|done]. simpl in Hloop.
      rewrite (IH _ _ Hloop n). unfold get_records at 1.
      destruct (decide (named n r)) as [Hn|Hn].
      * assert (m = n) as -> by (unfold named in Hn; congruence).
        rewrite lookup_insert_eq. simpl.
        unfold record_info_of at 2. rewrite Ht, Hv.
        destruct (decide (n ∈ names_to_monitor)); [|done].
        by rewrite <- app_assoc.
      * assert (m ≠ n) by (unfold named in Hn; congruence).
        by rewrite lookup_insert_ne.
    + rewrite (IH _ _ Hloop n).
      destruct (decide (named n r)) as [Hn|Hn]; [|done].
      assert (m = n) as -> by (unfold named in Hn; congruence).
      by destruct (decide (n ∈ names_to_monitor)).
Qed.

Lemma build_state_not_raise names_to_monitor (all_records : list RawRecord) :
  ¬ Exists (lookup_fails names_to_monitor) all_records →
  ∃ snap, build_state names_to_monitor all_records = Ok snap.
Proof.
  intros Hnone. unfold build_state.
  destruct (build_loop names_to_monitor ∅ all_records) as [snap|e] eqn:Hloop;
    [by eexists|].
  destruct Hnone. apply (build_loop_raise_iff _ _ ∅). by rewrite Hloop.
Qed.

Lemma build_state_perm_records (names_to_monitor : gset string)
    (raw1 raw2 : list RawRecord) (s1 : Snapshot) :
  build_state names_to_monitor raw1 = Ok s1 →
  raw2 ≡ₚ raw1 →
  ∃ s2,
    build_state names_to_monitor raw2 = Ok s2 ∧
    ∀ n, get_records s2 n ≡ₚ get_records s1 n.
Proof.
  intros Hb1 Hperm.
  destruct (build_state_not_raise names_to_monitor raw2) as [s2 Hb2].
  { rewrite Hperm. intros Hex. apply (build_loop_raise_iff _ _ ∅) in Hex.
    unfold build_state in Hb1. by rewrite Hb1 in Hex. }
  exists s2. split; [done|]. intros n.
  rewrite (build_loop_records _ _ _ _ Hb1 n), (build_loop_records _ _ _ _ Hb2 n).
  apply Permutation_app; [done|].
  destruct (decide (n ∈ names_to_monitor)); [|done]. by rewrite Hperm.
Qed.

(** X16: listing the same raw records in another order gives a snapshot
    with the same names and, under each name, the same records in some
    order. *)
Theorem build_state_perm (names_to_monitor : gset string)
    (raw1 raw2 : list RawRecord) (s1 : Snapshot) :
  build_state names_to_monitor raw1 = Ok s1 →
  raw2 ≡ₚ raw1 →
  ∃ s2,
    build_state names_to_monitor raw2 = Ok s2 ∧
    dom s2 = dom s1 ∧
    ∀ n, get_records s2 n ≡ₚ get_records s1 n.
Proof.
  intros Hb1 Hperm.
  destruct (build_state_perm_records _ _ _ _ Hb1 Hperm) as (s2 & Hb2 & Hrec).
  exists s2. split; [done|]. split; [|done].
  apply set_eq. intros n.
  rewrite (wf_in_dom_iff _ _ _ (build_state_wf _ _ _ Hb1)),
          (wf_in_dom_iff _ _ _ (build_state_wf _ _ _ Hb2)).
  specialize (Hrec n). split; intros Hne Hnil; rewrite Hnil in Hrec.
  - symmetry in Hrec. by apply Permutation_nil in Hrec.
  - by apply Permutation_nil in Hrec.
Qed.

Lemma build_state_perm_witness :
  ∃ s2,
    build_state {[ "www"; "api" ]}
      [raw "api" "CNAME" "x.example.com."; raw "www" "A" "2.2.2.2";
       raw "www" "A" "1.1.1.1"] = Ok s2 ∧
    dom s2 = dom ({[ "www" := [A1; A2];
                     "api" := [{| type := "CNAME"; value := "x.example.com." |}] ]}
                  : Snapshot) ∧
    ∀ n, get_records s2 n ≡ₚ
         get_records {[ "www" := [A1; A2];
                        "api" := [{| type := "CNAME"; value := "x.example.com." |}] ]} n.
Proof.
  apply (build_state_perm {[ "www"; "api" ]}
           [raw "www" "A" "1.1.1.1"; raw "api" "CNAME" "x.example.com.";
            raw "www" "A" "2.2.2.2"]).
  - vm_compute. reflexivity.
  - apply (bool_decide_unpack _). vm_compute. exact I.
Defined.

(** ** More on the check cycle *)

Lemma get_dnspod_records_ok status_message records (w : World) :
  get_dnspod_records (DnspodJson (Some "1") status_message records) w =
    (Ok (Some (default [] records)), printed w []).
Proof. simpl. unfold ret. by rewrite printed_nil. Qed.

(** A cycle whose fetch succeeds: the start line, then the builder and the
    comparison. *)
Lemma check_for_changes_fetched config order tg status_message records (w : World) :
  check_for_changes config order tg (DnspodJson (Some "1") status_message records) w =
    match build_state (list_to_set (names config)) (default [] records) with
    | Ok current_records_state =>
        detect config order tg current_records_state
          (printed w [LogCheckStart (domain config)])
    | Raise e => (Raise e, printed w [LogCheckStart (domain config)])
    end.
Proof.
  by rewrite (check_for_changes_unfold config order tg _ _ []
               w (get_dnspod_records_ok status_message records)).
Qed.

(** X17: when the stored state is the snapshot of a record list, a cycle
    that fetches the same records in another order reports nothing and posts
    nothing. *)
Theorem check_for_changes_reordered config order tg status_message
    (raw1 raw2 : list RawRecord) (w : World) :
  build_state (list_to_set (names config)) raw1 = Ok (previous_records_state w) →
  raw2 ≡ₚ raw1 →
  ∃ w',
    check_for_changes config order tg
      (DnspodJson (Some "1") status_message (Some raw2)) w = (Ok [], w') ∧
    telegram_posts w' = telegram_posts w.
Proof.
  intros Hb1 Hperm.
  destruct (build_state_perm_records _ _ _ _ Hb1 Hperm) as (s2 & Hb2 & Hrec).
  rewrite check_for_changes_fetched. simpl. rewrite Hb2.
  set (w0 := printed w [LogCheckStart (domain config)]).
  destruct (detect_spec config order tg s2 w0) as (w' & lines & Hrun & _ & Ht & _).
  exists w'. assert (changes (previous_records_state w0) s2
    (iteration order (dom (previous_records_state w0) ∪ dom s2)) = []) as Hnil.
  { apply changes_nil_iff. intros n _. symmetry. apply Hrec. }
  rewrite Hnil in Hrun, Ht.
  split.
  - rewrite Hrun. by destruct (decide (previous_records_state w0 = ∅)).
  - rewrite Ht. destruct (decide (previous_records_state w0 = ∅)); simpl;
      by rewrite app_nil_r.
Qed.

Lemma check_for_changes_reordered_witness :
  ∃ w',
    check_for_changes sample_config elements_order always_sent
      (DnspodJson (Some "1") None
         (Some [raw "api" "CNAME" "x.example.com."; raw "www" "A" "2.2.2.2";
                raw "www" "A" "1.1.1.1"]))
      (world_with {[ "www" := [A1; A2];
                     "api" := [{| type := "CNAME"; value := "x.example.com." |}] ]})
      = (Ok [], w') ∧
    telegram_posts w' =
      telegram_posts
        (world_with {[ "www" := [A1; A2];
                       "api" := [{| type := "CNAME"; value := "x.example.com." |}] ]}).
Proof.
  apply (check_for_changes_reordered sample_config elements_order always_sent None
           [raw "www" "A" "1.1.1.1"; raw "api" "CNAME" "x.example.com.";
            raw "www" "A" "2.2.2.2"]).
  - vm_compute. reflexivity.
  - apply (bool_decide_unpack _). vm_compute. exact I.
Defined.

(** X18: when a lookup of the builder fails on a fetched record, the cycle
    raises [KeyError] for [name], [type] or [value] after the start line: it
    prints nothing else, posts nothing and leaves the stored state as it
    was. *)
Theorem check_for_changes_key_error config order tg status_message
    (all_records : list RawRecord) (w : World) :
  Exists (lookup_fails (list_to_set (names config))) all_records →
  ∃ key,
    check_for_changes config order tg
      (DnspodJson (Some "1") status_message (Some all_records)) w
      = (Raise (KeyError key), printed w [LogCheckStart (domain config)]) ∧
    key ∈ ["name"; "type"; "value"].
Proof.
  intros Hfail. rewrite check_for_changes_fetched. simpl.
  apply (build_loop_raise_iff _ _ ∅) in Hfail. unfold build_state.
  destruct (build_loop (list_to_set (names config)) ∅ all_records)
    as [snap|[key]] eqn:Hloop; [done|].
  exists key. split; [done|].
  apply build_loop_first_failure in Hloop as (before & r & after & _ & _ & Hkey).
  unfold missing_key in Hkey.
  destruct (r !! "name"); [|simplify_eq; set_solver].
  case_decide; [|done].
  destruct (r !! "type"), (r !! "value"); simplify_eq; set_solver.
Qed.

Lemma check_for_changes_key_error_witness :
  ∃ key,
    check_for_changes sample_config elements_order always_sent
      (DnspodJson (Some "1") None
         (Some [raw "www" "A" "1.1.1.1"; delete "value" (raw "api" "A" "2.2.2.2")]))
      (world_with {[ "www" := [A1] ]})
      = (Raise (KeyError key),
         printed (world_with {[ "www" := [A1] ]})
           [LogCheckStart (domain sample_config)]) ∧
    key ∈ ["name"; "type"; "value"].
Proof.
  apply (check_for_changes_key_error sample_config elements_order always_sent None
           [raw "www" "A" "1.1.1.1"; delete "value" (raw "api" "A" "2.2.2.2")]
           (world_with {[ "www" := [A1] ]})).
  apply Exists_cons_tl, Exists_cons_hd. right. exists "api".
  split; [vm_compute; reflexivity|].
  split; [apply (bool_decide_unpack _); vm_compute; exact I|].
  right. vm_compute. reflexivity.
Defined.

Lemma changes_all_removed (previous : Snapshot) (visited : list string) :
  Forall (λ n, get_records previous n ≠ []) visited →
  changes previous ∅ visited =
    (λ n, {| subdomainName := n;
             oldRecords := sorted (get_records previous n);
             newRecords := [] |}) <$> visited.
Proof.
  induction 1 as [|n rest Hn _ IH]; [done|].
  unfold changes in *. rewrite fmap_cons, <- IH. simpl.
  assert (change_of previous ∅ n =
          Some {| subdomainName := n;
                  oldRecords := sorted (get_records previous n);
                  newRecords := [] |}) as ->; [|done].
  unfold change_of. rewrite (get_records_not_in_dom ∅ n) by set_solver. simpl.
  rewrite decide_True; [done|].
  intros Hnil. apply Hn. apply Permutation_nil. by rewrite <- Hnil, sorted_perm.
Qed.

(** X19: with a baseline in place, a cycle whose fetch succeeds but yields
    the empty snapshot (no [records] in the answer, an empty list, or no
    monitored name in it) reports every name of the baseline as removed, in
    the order the name set is visited, and stores the empty snapshot, so that
    the first-run test of line 142 holds again. *)
Theorem check_for_changes_all_removed config order tg status_message records
    (w : World) :
  initialized w →
  snapshot_wf (list_to_set (names config)) (previous_records_state w) →
  build_state (list_to_set (names config)) (default [] records) = Ok ∅ →
  ∃ w',
    check_for_changes config order tg
      (DnspodJson (Some "1") status_message records) w
      = (Ok ((λ n, {| subdomainName := n;
                      oldRecords := sorted (get_records (previous_records_state w) n);
                      newRecords := [] |})
             <$> iteration order (dom (previous_records_state w))),
         w') ∧
    previous_records_state w' = ∅.
Proof.
  intros Hinit Hwf Hbuild.
  rewrite check_for_changes_fetched, Hbuild.
  set (w0 := printed w [LogCheckStart (domain config)]).
  destruct (detect_spec config order tg ∅ w0) as (w' & lines & Hrun & Hp & _).
  change (previous_records_state w0) with (previous_records_state w) in *.
  rewrite decide_False in Hrun by exact Hinit.
  rewrite decide_False in Hp by exact Hinit.
  rewrite dom_empty_L, union_empty_r_L in Hrun.
  exists w'. split.
  - rewrite Hrun. do 2 f_equal. apply changes_all_removed.
    apply Forall_forall. intros n Hn%iteration_elem_of.
    by apply (wf_in_dom_iff _ _ _ Hwf).
  - rewrite Hp. rewrite decide_True; [done|]. intros Heq. by apply Hinit.
Qed.

Lemma check_for_changes_all_removed_witness :
  ∃ w',
    check_for_changes sample_config elements_order always_sent
      (DnspodJson (Some "1") None None) (world_with {[ "www" := [A2; A1] ]})
      = (Ok ((λ n, {| subdomainName := n;
                      oldRecords :=
                        sorted (get_records
                          (previous_records_state (world_with {[ "www" := [A2; A1] ]})) n);
                      newRecords := [] |})
             <$> iteration elements_order
                   (dom (previous_records_state (world_with {[ "www" := [A2; A1] ]})))),
         w') ∧
    previous_records_state w' = ∅.
Proof.
  apply (check_for_changes_all_removed sample_config elements_order always_sent
           None None (world_with {[ "www" := [A2; A1] ]})).
  - apply (bool_decide_unpack _). vm_compute. exact I.
  - apply (bool_decide_unpack _). vm_compute. exact I.
  - vm_compute. reflexivity.
Defined.

(** ** More on the polling loop *)

Lemma bind_raise {A B} (m : M A) (k : A → M B) (w w' : World) (e : Exception) :
  m w = (Raise e, w') → bind m k w = (Raise e, w').
Proof. unfold bind. by intros ->. Qed.

Lemma main_loop_app config order tg (l1 l2 : list DnspodAnswer) :
  ∀ w : World,
    main_loop config order tg (l1 ++ l2) w =
      (first <- main_loop config order tg l1 ;;
       second <- main_loop config order tg l2 ;;
       ret (first ++ second))%M w.
Proof.
  induction l1 as [|answer l1 IH]; intros w; simpl.
  - unfold bind, ret. by destruct (main_loop config order tg l2 w) as [[?|?] ?].
  - unfold bind.
    destruct (check_for_changes config order tg answer w) as [[events|e] w1];
      [|done].
    rewrite IH. unfold bind, ret.
    destruct (main_loop config order tg l1 w1) as [[first|e] w2]; [|done].
    by destruct (main_loop config order tg l2 w2) as [[second|e] w3].
Qed.

(** The cycles end at the first one in which a lookup of the builder fails:
    its [KeyError] escapes in the world the cycles before it left, with the
    start line of the failing cycle printed, whatever answers would have
    come next. *)
Lemma main_loop_stops_at_key_error config order tg
    (before after : list DnspodAnswer) status_message
    (all_records : list RawRecord) (w w1 : World) events :
  main_loop config order tg before w = (Ok events, w1) →
  Exists (lookup_fails (list_to_set (names config))) all_records →
  ∃ key,
    main_loop config order tg
      (before ++ DnspodJson (Some "1") status_message (Some all_records) :: after) w
      = (Raise (KeyError key), printed w1 [LogCheckStart (domain config)]).
Proof.
  intros Hbefore Hfail.
  apply (build_loop_raise_iff _ _ ∅) in Hfail.
  destruct (build_state (list_to_set (names config)) all_records)
    as [snap|[key]] eqn:Hbuild; [by unfold build_state in Hbuild; rewrite Hbuild in Hfail|].
  exists key. rewrite main_loop_app.
  rewrite (bind_ok _ _ _ _ _ Hbefore). simpl.
  unfold bind. rewrite check_for_changes_fetched. simpl.
  by rewrite Hbuild.
Qed.

(** X20: the script ends at the first cycle in which a lookup of the
    builder fails: after the lines of the cycles before it, the start line of
    the failing cycle is printed, then the handler of line 203 prints its
    line for the [KeyError] of [name], [type] or [value] and exits with
    status 1; the stored state and the posts are those the cycles before
    left, and the answers that would have come next are not used. *)
Theorem main_block_exits_at_key_error config order tg
    (before after : list DnspodAnswer) status_message
    (all_records : list RawRecord) (w w1 : World) events :
  main_loop config order tg before w = (Ok events, w1) →
  Exists (lookup_fails (list_to_set (names config))) all_records →
  ∃ key,
    main_block config order tg
      (before ++ DnspodJson (Some "1") status_message (Some all_records) :: after) w
      = (Exited (LogUncaughtException (KeyError key)) 1,
         printed w1 [LogCheckStart (domain config)]) ∧
    key ∈ ["name"; "type"; "value"].
Proof.
  intros Hbefore Hfail.
  destruct (main_loop_stops_at_key_error config order tg before after
              status_message all_records w w1 events Hbefore Hfail) as [key Hstop].
  exists key. unfold main_block. rewrite Hstop. split; [done|].
  apply (build_loop_raise_iff _ _ ∅) in Hfail.
  destruct (build_loop (list_to_set (names config)) ∅ all_records)
    as [snap|[key']] eqn:Hloop; [done|].
  assert (key' = key) as ->.
  { rewrite main_loop_app, (bind_ok _ _ _ _ _ Hbefore) in Hstop. simpl in Hstop.
    unfold bind in Hstop. rewrite check_for_changes_fetched in Hstop.
    simpl in Hstop. unfold build_state in Hstop. rewrite Hloop in Hstop.
    by injection Hstop. }
  apply build_loop_first_failure in Hloop as (pre & r & post & _ & _ & Hkey).
  unfold missing_key in Hkey.
  destruct (r !! "name"); [|simplify_eq; set_solver].
  case_decide; [|done].
  destruct (r !! "type"), (r !! "value"); simplify_eq; set_solver.
Qed.

Lemma main_block_exits_at_key_error_witness :
  ∃ key,
    main_block sample_config elements_order always_sent
      ([records_ok [raw "www" "A" "1.1.1.1"]] ++
       DnspodJson (Some "1") None (Some [delete "name" (raw "www" "A" "1.1.1.1")])
       :: [records_ok [raw "www" "A" "2.2.2.2"]])
      initial_world
      = (Exited (LogUncaughtException (KeyError key)) 1,
         printed
           (main_loop sample_config elements_order always_sent
              [records_ok [raw "www" "A" "1.1.1.1"]] initial_world).2
           [LogCheckStart (domain sample_config)]) ∧
    key ∈ ["name"; "type"; "value"].
Proof.
  apply (main_block_exits_at_key_error sample_config elements_order always_sent
           [records_ok [raw "www" "A" "1.1.1.1"]]
           [records_ok [raw "www" "A" "2.2.2.2"]] None
           [delete "name" (raw "www" "A" "1.1.1.1")] initial_world _ [[]]).
  - vm_compute. reflexivity.
  - apply Exists_cons_hd. left. vm_compute. reflexivity.
Defined.

Lemma same_state_printed (w1 w2 : World) (l1 l2 : list LogLine) :
  same_state w1 w2 → same_state (printed w1 l1) (printed w2 l2).
Proof. by intros [? ?]. Qed.

Lemma detect_same_state config order tg (current : Snapshot) (w1 w2 : World) :
  same_state w1 w2 →
  (detect config order tg current w1).1 = (detect config order tg current w2).1 ∧
  same_state (detect config order tg current w1).2
             (detect config order tg current w2).2.
Proof.
  intros [Hp Ht].
  destruct (detect_spec config order tg current w1) as (w1' & l1 & -> & Hp1 & Ht1 & _).
  destruct (detect_spec config order tg current w2) as (w2' & l2 & -> & Hp2 & Ht2 & _).
  simpl. rewrite Hp in *. split; [done|].
  split; [by rewrite Hp1, Hp2 | by rewrite Ht1, Ht2, Ht].
Qed.

Lemma check_for_changes_same_state config order tg answer (w1 w2 : World) :
  same_state w1 w2 →
  (check_for_changes config order tg answer w1).1
    = (check_for_changes config order tg answer w2).1 ∧
  same_state (check_for_changes config order tg answer w1).2
             (check_for_changes config order tg answer w2).2.
Proof.
  intros Hsame.
  destruct (get_dnspod_records_run answer) as (r & lines & Hrun & _ & _).
  rewrite !(check_for_changes_unfold _ _ _ _ _ _ _ Hrun). simpl.
  destruct r as [all_records|]; [|split; [done | by repeat apply same_state_printed]].
  destruct (build_state (list_to_set (names config)) all_records) as [current|e];
    [|split; [done | by apply same_state_printed]].
  by apply detect_same_state, same_state_printed.
Qed.

Lemma main_loop_same_state config order tg (answers : list DnspodAnswer) :
  ∀ w1 w2 : World,
    same_state w1 w2 →
    (main_loop config order tg answers w1).1
      = (main_loop config order tg answers w2).1 ∧
    same_state (main_loop config order tg answers w1).2
               (main_loop config order tg answers w2).2.
Proof.
  induction answers as [|answer rest IH]; intros w1 w2 Hsame; simpl; [done|].
  destruct (check_for_changes_same_state config order tg answer w1 w2 Hsame)
    as [Hv Hs].
  unfold bind.
  destruct (check_for_changes config order tg answer w1) as [r1 w1'],
           (check_for_changes config order tg answer w2) as [r2 w2'].
  simpl in Hv, Hs. subst r2. destruct r1 as [events|e]; [|done].
  destruct (IH w1' w2' Hs) as [Hv' Hs'].
  unfold ret.
  destruct (main_loop config order tg rest w1') as [r1 w1''],
           (main_loop config order tg rest w2') as [r2 w2''].
  simpl in Hv', Hs'. subst r2. by destruct r1.
Qed.

(** X21: a cycle whose fetch fails leaves no trace but in the log: the run
    with that cycle and the run without it notify the same changes, or raise
    the same exception, and end with the same stored state and the same
    posts. *)
Theorem main_loop_skips_failed_fetch config order tg
    (before after : list DnspodAnswer) (failed : DnspodAnswer) (w : World) :
  (get_dnspod_records failed w).1 = Ok None →
  all_events (main_loop config order tg (before ++ failed :: after) w).1
    = all_events (main_loop config order tg (before ++ after) w).1 ∧
  same_state (main_loop config order tg (before ++ failed :: after) w).2
             (main_loop config order tg (before ++ after) w).2.
Proof.
  intros Hfail.
  destruct (get_dnspod_records_run failed) as (r & lines & Hrun & _ & _).
  rewrite Hrun in Hfail. simpl in Hfail. injection Hfail as ->.
  rewrite !main_loop_app.
  destruct (main_loop config order tg before w) as [[first|e] w1] eqn:Hb;
    [|by rewrite !(bind_raise _ _ _ _ _ Hb)].
  rewrite !(bind_ok _ _ _ _ _ Hb).
  pose proof (check_for_changes_unfold config order tg failed None lines w1 Hrun)
    as Hc. simpl in Hc.
  match type of Hc with _ = (_, ?w1') =>
    assert (same_state w1' w1) as Hsame by done;
    destruct (main_loop_same_state config order tg after w1' w1 Hsame) as [Hv Hs];
    destruct (main_loop config order tg after w1') as [r1 w2] eqn:Ha1 end.
  destruct (main_loop config order tg after w1) as [r2 w2'] eqn:Ha2.
  simpl in Hv, Hs. subst r2. destruct r1 as [second|e].
  - assert (main_loop config order tg (failed :: after) w1
            = (Ok ([] :: second), w2)) as Hfa.
    { simpl. by rewrite (bind_ok _ _ _ _ _ Hc), (bind_ok _ _ _ _ _ Ha1). }
    rewrite (bind_ok _ _ _ _ _ Hfa), (bind_ok _ _ _ _ _ Ha2).
    unfold ret; simpl. split; [|done]. f_equal. by rewrite !concat_app.
  - assert (main_loop config order tg (failed :: after) w1 = (Raise e, w2)) as Hfa.
    { simpl. by rewrite (bind_ok _ _ _ _ _ Hc), (bind_raise _ _ _ _ _ Ha1). }
    by rewrite (bind_raise _ _ _ _ _ Hfa), (bind_raise _ _ _ _ _ Ha2).
Qed.

Lemma main_loop_skips_failed_fetch_witness :
  all_events
    (main_loop sample_config elements_order always_sent
       ([records_ok [raw "www" "A" "1.1.1.1"]] ++ DnspodJSONDecodeError
        :: [records_ok [raw "www" "A" "2.2.2.2"]]) initial_world).1
    = all_events
        (main_loop sample_config elements_order always_sent
           ([records_ok [raw "www" "A" "1.1.1.1"]] ++
            [records_ok [raw "www" "A" "2.2.2.2"]]) initial_world).1 ∧
  same_state
    (main_loop sample_config elements_order always_sent
       ([records_ok [raw "www" "A" "1.1.1.1"]] ++ DnspodJSONDecodeError
        :: [records_ok [raw "www" "A" "2.2.2.2"]]) initial_world).2
    (main_loop sample_config elements_order always_sent
       ([records_ok [raw "www" "A" "1.1.1.1"]] ++
        [records_ok [raw "www" "A" "2.2.2.2"]]) initial_world).2.
Proof.
  apply (main_loop_skips_failed_fetch sample_config elements_order always_sent
           [records_ok [raw "www" "A" "1.1.1.1"]]
           [records_ok [raw "www" "A" "2.2.2.2"]] DnspodJSONDecodeError
           initial_world).
  reflexivity.
Defined.

(** ** The log of the change detector *)

Lemma change_lines_app config tg (n : nat) (l1 l2 : list ChangeEvent) :
  change_lines config tg n (l1 ++ l2) =
  change_lines config tg n l1 ++ change_lines config tg (n + length l1) l2.
Proof.
  revert n. induction l1 as [|e l1 IH]; intros n; simpl.
  - by rewrite Nat.add_0_r.
  - rewrite IH. simpl. by rewrite Nat.add_succ_r.
Qed.

Lemma compare_name_log config tg (current : Snapshot) (name : string) (w : World) :
  let events := option_list (change_of (previous_records_state w) current name) in
  ∃ w',
    compare_name config tg current name w = (Ok events, w') ∧
    previous_records_state w' = previous_records_state w ∧
    telegram_posts w' = telegram_posts w ++ (notification config <$> events) ∧
    stdout w' = stdout w ++
      change_lines config tg (length (telegram_posts w)) events.
Proof.
  unfold compare_name, change_of, bind, read_previous_records_state; simpl.
  case_decide as Hd; simpl.
  - unfold send_telegram_message, bind, posts_so_far, record_post, print; simpl.
    destruct (tg _) as [e|status_code ok response_text]; simpl;
      [|destruct (bool_decide (status_code = 200%Z) && ok); simpl];
      (eexists; split; [reflexivity|];
       split; [reflexivity|]; split; [reflexivity|];
       by rewrite <- app_assoc).
  - exists w. by rewrite !app_nil_r.
Qed.

Lemma for_each_compare_log config tg (current : Snapshot) (visited : list string) :
  ∀ w : World,
    let events := changes (previous_records_state w) current visited in
    ∃ w',
      for_each visited (compare_name config tg current) w = (Ok events, w') ∧
      previous_records_state w' = previous_records_state w ∧
      telegram_posts w' = telegram_posts w ++ (notification config <$> events) ∧
      stdout w' = stdout w ++
        change_lines config tg (length (telegram_posts w)) events.
Proof.
  induction visited as [|name rest IH]; intros w; simpl.
  - exists w. by rewrite !app_nil_r.
  - destruct (compare_name_log config tg current name w)
      as (w1 & Hrun & Hp & Ht & Hs).
    destruct (IH w1) as (w2 & Hrun' & Hp' & Ht' & Hs').
    exists w2.
    rewrite (bind_ok _ _ _ _ _ Hrun), (bind_ok _ _ _ _ _ Hrun').
    rewrite Hp in *. unfold ret, changes in *; simpl.
    assert (option_list (change_of (previous_records_state w) current name)
            ++ omap (change_of (previous_records_state w) current) rest
            = match change_of (previous_records_state w) current name with
              | Some y => y :: omap (change_of (previous_records_state w) current) rest
              | None => omap (change_of (previous_records_state w) current) rest
              end) as Heq by (by destruct (change_of _ _ name)).
    rewrite <- Heq.
    split; [done|]. split; [done|]. split.
    + by rewrite Ht', Ht, <- app_assoc, <- fmap_app.
    + rewrite Hs', Hs, <- app_assoc, change_lines_app. do 3 f_equal.
      rewrite Ht, length_app, length_fmap. done.
Qed.

(** X22: what [detect] prints.  On an empty stored state, the two lines of
    the first run.  On a stored state equal to the current snapshot, the line
    that nothing changed.  Otherwise the line that a change was detected,
    also when no name is reported because only the order of records differs,
    and then for each reported change, in order, the line of its subdomain
    and the line of the answer to its post. *)
Theorem detect_log config order tg (current : Snapshot) (w : World) :
  ∃ events w',
    detect config order tg current w = (Ok events, w') ∧
    stdout w' = stdout w ++
      (if decide (previous_records_state w = ∅) then [LogFirstRun; LogInitDone]
       else if decide (current = previous_records_state w) then [LogNoChange]
       else LogChangeDetected
            :: change_lines config tg (length (telegram_posts w)) events).
Proof.
  unfold detect.
  rewrite (bind_ok _ _ w w (previous_records_state w)) by done.
  destruct (decide (previous_records_state w = ∅)) as [Hempty|Hfull].
  - eexists _, _. unfold bind, print, assign_previous_records_state, ret; simpl.
    split; [reflexivity|]. by rewrite <- app_assoc.
  - destruct (decide (current ≠ previous_records_state w)) as [Hne|Heq].
    + set (w0 := {| previous_records_state := previous_records_state w;
                    stdout := stdout w ++ [LogChangeDetected];
                    telegram_posts := telegram_posts w |}).
      rewrite (bind_ok _ _ w w0 ()) by done.
      destruct (for_each_compare_log config tg current
                  (iteration order (dom (previous_records_state w) ∪ dom current)) w0)
        as (w1 & Hrun & Hp & Ht & Hs).
      rewrite (bind_ok _ _ _ _ _ Hrun).
      eexists _, _. unfold bind, assign_previous_records_state, ret; simpl.
      split; [reflexivity|].
      rewrite decide_False by done. rewrite Hs. simpl. by rewrite <- app_assoc.
    + apply dec_stable in Heq. eexists _, _.
      unfold bind, print, ret; simpl. split; [reflexivity|].
      by rewrite decide_True.
Qed.

(** ** The changes reported on a stored state that is not empty *)

(** X23: on a stored state that is not empty, [detect] reports each name at
    most once, and reports a name exactly when its records in the stored
    state and in the current snapshot are not the same up to order (no
    record on a side that lacks the name).  Each reported change carries the
    records of the name on both sides, as permutations in the order of the
    key (type, value), and one notification is posted per reported change. *)
Theorem detect_reports_exactly_changed_names config order tg
    (current : Snapshot) (w : World) :
  initialized w →
  ∃ events w',
    detect config order tg current w = (Ok events, w') ∧
    NoDup (subdomainName <$> events) ∧
    (∀ n, n ∈ subdomainName <$> events ↔
          ¬ get_records (previous_records_state w) n ≡ₚ get_records current n) ∧
    (∀ e, e ∈ events →
       oldRecords e ≡ₚ get_records (previous_records_state w) (subdomainName e) ∧
       Sorted key_le (oldRecords e) ∧
       newRecords e ≡ₚ get_records current (subdomainName e) ∧
       Sorted key_le (newRecords e)) ∧
    telegram_posts w' = telegram_posts w ++ (notification config <$> events).
Proof.
  intros Hinit.
  destruct (detect_reports_changed_names config order tg current w Hinit)
    as (events & w' & Hrun & Hnodup & Hev & Hposts).
  exists events, w'. split; [done|]. split; [done|]. split; [|split; [|done]].
  - intros n. rewrite list_elem_of_fmap. split.
    + intros (e & -> & He). apply Hev in He as (_ & Hold & Hnew & Hdiff).
      intros Hperm. apply Hdiff. rewrite Hold, Hnew.
      by apply sorted_eq_iff_perm.
    + intros Hdiff.
      exists {| subdomainName := n;
                oldRecords := sorted (get_records (previous_records_state w) n);
                newRecords := sorted (get_records current n) |}.
      split; [done|]. apply Hev. simpl.
      split; [|split; [done|split; [done|]]].
      * destruct (decide (n ∈ dom (previous_records_state w) ∪ dom current))
          as [|Hn]; [done|].
        apply not_elem_of_union in Hn as [Hn1 Hn2]. destruct Hdiff.
        by rewrite !get_records_not_in_dom.
      * intros Heq. apply Hdiff. by apply sorted_eq_iff_perm.
  - intros e He. apply Hev in He as (_ & -> & -> & _).
    split; [apply sorted_perm|]. split; [apply sorted_Sorted|].
    split; [apply sorted_perm | apply sorted_Sorted].
Qed.

Lemma detect_reports_exactly_changed_names_witness :
  ∃ events w',
    detect sample_config elements_order always_down
      {[ "a" := [{| type := "A"; value := "9.9.9.9" |}]; "b" := [A2] ]}
      (world_with {[ "a" := [A1]; "b" := [A2] ]}) = (Ok events, w') ∧
    NoDup (subdomainName <$> events) ∧
    (∀ n, n ∈ subdomainName <$> events ↔
          ¬ get_records
              (previous_records_state (world_with {[ "a" := [A1]; "b" := [A2] ]})) n
            ≡ₚ get_records
                 {[ "a" := [{| type := "A"; value := "9.9.9.9" |}]; "b" := [A2] ]} n) ∧
    (∀ e, e ∈ events →
       oldRecords e ≡ₚ
         get_records
           (previous_records_state (world_with {[ "a" := [A1]; "b" := [A2] ]}))
           (subdomainName e) ∧
       Sorted key_le (oldRecords e) ∧
       newRecords e ≡ₚ
         get_records
           {[ "a" := [{| type := "A"; value := "9.9.9.9" |}]; "b" := [A2] ]}
           (subdomainName e) ∧
       Sorted key_le (newRecords e)) ∧
    telegram_posts w' =
      telegram_posts (world_with {[ "a" := [A1]; "b" := [A2] ]})
      ++ (notification sample_config <$> events).
Proof.
  apply (detect_reports_exactly_changed_names sample_config elements_order
           always_down
           {[ "a" := [{| type := "A"; value := "9.9.9.9" |}]; "b" := [A2] ]}
           (world_with {[ "a" := [A1]; "b" := [A2] ]})).
  apply (bool_decide_unpack _). vm_compute. exact I.
Defined.
